(** * SimilarPhotoRemover: a shallow embedding of [kopernikus_solution.py]

    The program has three methods, run in this order by the script:
    [load_input] groups the file names of a folder by camera,
    [identify_similar_photos] walks every camera's names and collects the
    names of unwanted images, [remove_similar_photos] deletes them.

    The fields of [self] ([folder], [dataset_dict], [unwanted_images]) are
    passed to and returned by the functions below.  The [print] calls are
    left out, except that the number printed by [remove_similar_photos] is
    the result of its model. *)

From Stdlib Require Import List String Ascii Bool Arith ZArith QArith Lia Permutation.
Import ListNotations.

Local Open Scope string_scope.
Local Open Scope list_scope.

(** ** Python results: a value or a raised exception *)

Inductive exn : Type :=
| FileNotFoundError
| PermissionError
| NotADirectoryError
| KeyError
| IndexError
| cv2_error.

Inductive outcome (A : Type) : Type :=
| Ok (a : A)
| Raise (e : exn).

Arguments Ok {A} a.
Arguments Raise {A} e.

Definition exn_eqb (a b : exn) : bool :=
  match a, b with
  | FileNotFoundError, FileNotFoundError
  | PermissionError, PermissionError
  | NotADirectoryError, NotADirectoryError
  | KeyError, KeyError
  | IndexError, IndexError
  | cv2_error, cv2_error => true
  | _, _ => false
  end.

(** [except FileNotFoundError] catches that class only; every [exn] here is a
    subclass of [Exception], which [except Exception] catches. *)
Definition is_FileNotFoundError (e : exn) : bool := exn_eqb e FileNotFoundError.
Definition is_Exception (e : exn) : bool := true.

(** [for x in l: s = body(s, x)] where the body may raise. *)
Fixpoint for_in {A S : Type} (l : list A) (body : S -> A -> outcome S) (s : S)
  : outcome S :=
  match l with
  | [] => Ok s
  | x :: l' =>
      match body s x with
      | Ok s' => for_in l' body s'
      | Raise e => Raise e
      end
  end.

(** ** The file system seen through [os.remove] and [os.listdir]

    A file system is the list of its nodes, each under its full path, in
    directory order.  A file that [os.remove] may not delete (read-only,
    locked by another process) has [removable = false]. *)

Inductive node : Type :=
| Dir
| File (removable : bool).

Definition filesystem : Type := list (string * node).

Fixpoint fs_lookup (path : string) (fs : filesystem) : option node :=
  match fs with
  | [] => None
  | (p, n) :: fs' => if p =? path then Some n else fs_lookup path fs'
  end.

Definition fs_delete (path : string) (fs : filesystem) : filesystem :=
  filter (fun e => negb (fst e =? path)) fs.

(** [strip_prefix a p] is [Some n] exactly when [p = a ++ n]. *)
Fixpoint strip_prefix (a p : string) : option string :=
  match a with
  | EmptyString => Some p
  | String c a' =>
      match p with
      | EmptyString => None
      | String c' p' => if Ascii.eqb c c' then strip_prefix a' p' else None
      end
  end.

Definition is_sep (c : ascii) : bool :=
  Ascii.eqb c "\"%char || Ascii.eqb c "/"%char.

Fixpoint has_sep (s : string) : bool :=
  match s with
  | EmptyString => false
  | String c s' => is_sep c || has_sep s'
  end.

(** The name of [p] inside [folder], when [p] is directly in it.  Paths are
    Windows paths, as the script writes them: [folder], a backslash, the
    name. *)
Definition child_name (folder p : string) : option string :=
  match strip_prefix (folder ++ "\") p with
  | Some n => if (n =? "") || has_sep n then None else Some n
  | None => None
  end.

Fixpoint children (folder : string) (fs : filesystem) : list string :=
  match fs with
  | [] => []
  | (p, _) :: fs' =>
      match child_name folder p with
      | Some n => n :: children folder fs'
      | None => children folder fs'
      end
  end.

(** The world the program runs in: the file system and, as a record of what
    the program did, every path handed to [os.remove] with the exception the
    call raised, if any, in call order. *)
Record world : Type := {
  files : filesystem;
  os_remove_log : list (string * option exn)
}.

Definition io (A : Type) : Type := world -> outcome A * world.

Definition ret {A : Type} (a : A) : io A := fun w => (Ok a, w).

Definition bind {A B : Type} (m : io A) (k : A -> io B) : io B :=
  fun w =>
    match m w with
    | (Ok a, w') => k a w'
    | (Raise e, w') => (Raise e, w')
    end.

Declare Scope io_scope.
Delimit Scope io_scope with io.
Notation "x <- m ;; k" := (bind m (fun x => k))
  (at level 100, m at next level, right associativity) : io_scope.
Notation "m ;; k" := (bind m (fun _ => k))
  (at level 100, right associativity) : io_scope.
Local Open Scope io_scope.

(** [try: body  except <class>: handler] *)
Definition try_except {A : Type} (body : io A) (catches : exn -> bool)
  (handler : exn -> io A) : io A :=
  fun w =>
    match body w with
    | (Ok a, w') => (Ok a, w')
    | (Raise e, w') => if catches e then handler e w' else (Raise e, w')
    end.

Fixpoint for_io {A S : Type} (l : list A) (body : S -> A -> io S) (s : S) : io S :=
  match l with
  | [] => ret s
  | x :: l' => s' <- body s x ;; for_io l' body s'
  end.

Definition os_remove_result (path : string) (fs : filesystem) : option exn :=
  match fs_lookup path fs with
  | Some (File true) => None
  | Some (File false) => Some PermissionError
  | Some Dir => Some PermissionError
  | None => Some FileNotFoundError
  end.

(** [os.remove(path)]: deletes a removable file, raises otherwise. *)
Definition os_remove (path : string) : io unit :=
  fun w =>
    let r := os_remove_result path (files w) in
    let log := os_remove_log w ++ [(path, r)] in
    match r with
    | None => (Ok tt, {| files := fs_delete path (files w); os_remove_log := log |})
    | Some e => (Raise e, {| files := files w; os_remove_log := log |})
    end.

(** [os.listdir(folder)]: the names directly inside an existing directory. *)
Definition os_listdir (folder : string) : io (list string) :=
  fun w =>
    match fs_lookup folder (files w) with
    | Some Dir => (Ok (children folder (files w)), w)
    | Some (File _) => (Raise NotADirectoryError, w)
    | None => (Raise FileNotFoundError, w)
    end.

(** [os.path.join] belongs to the platform's path module. *)
Class OsPath : Type := os_path_join : string -> string -> string.

(** ** Python [dict] with string keys: insertion-ordered, one entry per key *)

Definition dict (V : Type) : Type := list (string * V).

Fixpoint dict_get {V : Type} (k : string) (d : dict V) : option V :=
  match d with
  | [] => None
  | (k', v) :: d' => if k' =? k then Some v else dict_get k d'
  end.

(** [k in d] *)
Definition dict_contains {V : Type} (k : string) (d : dict V) : bool :=
  match dict_get k d with
  | Some _ => true
  | None => false
  end.

(** [for k in d] enumerates [dict_keys d]. *)
Definition dict_keys {V : Type} (d : dict V) : list string := map fst d.

(** [d[k] = v]: replaces the value of an existing key, else adds the key last. *)
Fixpoint dict_set {V : Type} (k : string) (v : V) (d : dict V) : dict V :=
  match d with
  | [] => [(k, v)]
  | (k', v') :: d' =>
      if k' =? k then (k', v) :: d' else (k', v') :: dict_set k v d'
  end.

(** [d[k].append(x)] for an existing key [k]. *)
Fixpoint dict_append {A : Type} (k : string) (x : A) (d : dict (list A))
  : dict (list A) :=
  match d with
  | [] => []
  | (k', v') :: d' =>
      if k' =? k then (k', v' ++ [x]) :: d' else (k', v') :: dict_append k x d'
  end.

(** ** [load_input] *)

(** [file_name[0:3]] *)
Definition camera_of (file_name : string) : string := substring 0 3 file_name.

(** One turn of the loop over [os.listdir(self.folder)]. *)
Definition populate_step (dataset_dict : dict (list string)) (file_name : string)
  : dict (list string) :=
  let camera := camera_of file_name in
  if negb (dict_contains camera dataset_dict)
  then dict_set camera [] dataset_dict
  else dict_append camera file_name dataset_dict.

Definition populate (listing : list string) : dict (list string) :=
  fold_left populate_step listing [].

Definition DS_Store : string := ".DS_Store".

Definition load_input (folder : string) : io (dict (list string)) :=
  try_except (os_remove (folder ++ "\.DS_Store"))
             is_FileNotFoundError (fun _ => ret tt) ;;
  listing <- os_listdir folder ;;
  ret (populate listing).

(** ** [identify_similar_photos]

    OpenCV and the two support functions of [imaging_interview] are outside
    the program; the detector is written against their interface.  An image
    read by [cv2.imread] is an array of [shape] (rows, columns, channels);
    a preprocessed image is a gray array of [gray_shape] (rows, columns).
    [cv2.resize] takes its target size as (width, height).  Of the triple
    that [compare_frames_change_detection] returns the program keeps the
    score only; OpenCV raises [cv2_error] from it when the two arrays
    cannot be subtracted. *)

Class Imaging : Type := {
  image : Type;
  gray_image : Type;
  shape : image -> nat * nat * nat;
  gray_shape : gray_image -> nat * nat;
  cv2_imread : string -> option image;
  cv2_resize : image -> nat * nat -> image;
  preprocess_image_change_detection : image -> list Z -> gray_image;
  compare_frames_change_detection : gray_image -> gray_image -> Q -> outcome Q
}.

(** [t[0]], [t[1]], [t[2]] of a shape tuple. *)
Definition dim0 (t : nat * nat * nat) : nat := fst (fst t).
Definition dim1 (t : nat * nat * nat) : nat := snd (fst t).
Definition dim2 (t : nat * nat * nat) : nat := snd t.

Definition shape_eqb (a b : nat * nat * nat) : bool :=
  Nat.eqb (dim0 a) (dim0 b) && Nat.eqb (dim1 a) (dim1 b) && Nat.eqb (dim2 a) (dim2 b).

(** The pixel-grid dimensions (height, width) of an image. *)
Definition height_width `{Imaging} (img : image) : nat * nat :=
  (dim0 (shape img), dim1 (shape img)).

(** [a < b] on numbers. *)
Definition Qltb (a b : Q) : bool := negb (Qle_bool b a).

(** The variables of the loop over one camera that live across its turns,
    and the list [self.unwanted_images].  ([next_image] is assigned in every
    turn before it is read.) *)
Record loop_state `{Imaging} : Type := {
  current_image : option image;
  unwanted_images : list string
}.

Section Detector.
Context `{OsPath} `{Imaging}.
Variable folder : string.
Variable Gaussian_blur_radius_list_input : list Z.
Variable score_threshold_input : Q.
Variable min_contour_area_input : Q.

(** The shape check and the resize that follows it. *)
Definition reconcile (current_image next_image : image) : image :=
  if negb (shape_eqb (shape current_image) (shape next_image)) then
    let new_hight := dim1 (shape current_image) in
    let new_width := dim0 (shape current_image) in
    let new_dim := (new_hight, new_width) in
    cv2_resize next_image new_dim
  else next_image.

(** The body of the inner loop, from the [cv2.imread] call on. *)
Definition visit (st : loop_state) (image_idx_name : string) : outcome loop_state :=
  match cv2_imread (os_path_join folder image_idx_name) with
  | None =>
      Ok {| current_image := current_image st;
            unwanted_images := unwanted_images st ++ [image_idx_name] |}
  | Some image =>
      match current_image st with
      | None =>
          Ok {| current_image := Some image;
                unwanted_images := unwanted_images st |}
      | Some current =>
          let next_image := reconcile current image in
          let current_image_gray :=
            preprocess_image_change_detection current Gaussian_blur_radius_list_input in
          let next_image_gray :=
            preprocess_image_change_detection next_image Gaussian_blur_radius_list_input in
          match compare_frames_change_detection
                  current_image_gray next_image_gray min_contour_area_input with
          | Raise e => Raise e
          | Ok score =>
              if Qltb score score_threshold_input then
                Ok {| current_image := Some current;
                      unwanted_images := unwanted_images st ++ [image_idx_name] |}
              else
                Ok {| current_image := Some next_image;
                      unwanted_images := unwanted_images st |}
          end
      end
  end.

(** [image_idx_name = self.dataset_dict[camera][image_idx]], then the body. *)
Definition loop_body (names : list string) (st : loop_state) (image_idx : nat)
  : outcome loop_state :=
  match nth_error names image_idx with
  | None => Raise IndexError
  | Some image_idx_name => visit st image_idx_name
  end.

(** The inner loop [for image_idx in range(num_images)]. *)
Definition camera_loop (names : list string) (st : loop_state) : outcome loop_state :=
  let num_images := List.length names in
  for_in (seq 0 num_images) (loop_body names) st.

(** One turn of the outer loop: the camera starts with [current_image = None]. *)
Definition identify_camera (names : list string) (unwanted : list string)
  : outcome (list string) :=
  match camera_loop names {| current_image := None; unwanted_images := unwanted |} with
  | Ok st => Ok (unwanted_images st)
  | Raise e => Raise e
  end.

Definition identify_similar_photos (dataset_dict : dict (list string))
  : outcome (list string) :=
  for_in (dict_keys dataset_dict)
    (fun unwanted camera =>
       match dict_get camera dataset_dict with
       | None => Raise KeyError
       | Some names => identify_camera names unwanted
       end)
    [].
End Detector.

(** ** [remove_similar_photos] *)

Definition remove_one {H : OsPath} (folder : string) (num_removed_images : Z)
  (image_name : string) : io Z :=
  let image_path := os_path_join folder image_name in
  try_except
    (os_remove image_path ;; ret (num_removed_images + 1)%Z)
    is_Exception
    (fun _ => ret (num_removed_images - 1)%Z).

(** The result is the number that the method prints. *)
Definition remove_similar_photos {H : OsPath} (folder : string)
  (unwanted_images : list string) : io Z :=
  for_io unwanted_images (remove_one folder) 0%Z.

(** How many calls of a log of [os.remove] went through, and how many raised. *)
Definition succeeded (log : list (string * option exn)) : Z :=
  Z.of_nat (List.length (filter (fun c => match snd c with None => true | Some _ => false end) log)).

Definition failed (log : list (string * option exn)) : Z :=
  Z.of_nat (List.length (filter (fun c => match snd c with None => false | Some _ => true end) log)).

(** The first image of a camera's names that [cv2.imread] decodes. *)
Fixpoint first_decoded `{OsPath} `{Imaging} (folder : string) (names : list string)
  : option image :=
  match names with
  | [] => None
  | name :: names' =>
      match cv2_imread (os_path_join folder name) with
      | Some img => Some img
      | None => first_decoded folder names'
      end
  end.

(** ** A small instance of the interfaces, to run the program on

    Windows paths, images that are a size and one number standing for their
    content, a disk given as a table from paths to images.  Resizing sets
    the size, preprocessing keeps size and content, and the score of two
    gray images of one size is the distance of their contents. *)

Module Example.

#[export] Instance windows_path : OsPath := fun a b => (a ++ "\" ++ b)%string.

Record toy_image : Type := {
  toy_rows : nat;
  toy_cols : nat;
  toy_channels : nat;
  toy_content : Z
}.

Definition toy_resize (img : toy_image) (dsize : nat * nat) : toy_image :=
  {| toy_rows := snd dsize; toy_cols := fst dsize;
     toy_channels := toy_channels img; toy_content := toy_content img |}.

Definition toy_compare (a b : nat * nat * Z) (area : Q) : outcome Q :=
  if Nat.eqb (fst (fst a)) (fst (fst b)) && Nat.eqb (snd (fst a)) (snd (fst b))
  then Ok (inject_Z (Z.abs (snd a - snd b)))
  else Raise cv2_error.

Definition toy_imaging (disk : dict toy_image) : Imaging := {|
  image := toy_image;
  gray_image := nat * nat * Z;
  shape := fun img => (toy_rows img, toy_cols img, toy_channels img);
  gray_shape := fun g => fst g;
  cv2_imread := fun path => dict_get path disk;
  cv2_resize := toy_resize;
  preprocess_image_change_detection :=
    fun img _ => (toy_rows img, toy_cols img, toy_content img);
  compare_frames_change_detection := toy_compare
|}.

(** The same, with a comparison that raises whenever it is called. *)
Definition no_compare_imaging (disk : dict toy_image) : Imaging := {|
  image := toy_image;
  gray_image := nat * nat * Z;
  shape := fun img => (toy_rows img, toy_cols img, toy_channels img);
  gray_shape := fun g => fst g;
  cv2_imread := fun path => dict_get path disk;
  cv2_resize := toy_resize;
  preprocess_image_change_detection :=
    fun img _ => (toy_rows img, toy_cols img, toy_content img);
  compare_frames_change_detection := fun _ _ _ => Raise cv2_error
|}.

Definition frame (rows cols : nat) (content : Z) : toy_image :=
  {| toy_rows := rows; toy_cols := cols; toy_channels := 3; toy_content := content |}.

(** The script's settings. *)
Definition radii : list Z := [5; 7]%Z.
Definition threshold : Q := inject_Z 750.
Definition min_area : Q := inject_Z 50.

Definition dataset : string := "C:\dataset".

Definition disk : dict toy_image :=
  [ ("C:\dataset\c10-1.png", frame 480 640 0);
    ("C:\dataset\c10-2.png", frame 480 640 100);
    ("C:\dataset\c10-3.png", frame 1080 1920 2000);
    ("C:\dataset\c20-1.png", frame 480 640 5000);
    ("C:\dataset\c20-2.png", frame 480 640 5000) ].

Definition folder_world : world :=
  {| files := [ ("C:\dataset", Dir);
                ("C:\dataset\c10-1.png", File true);
                ("C:\dataset\c10-2.png", File true);
                ("C:\dataset\.DS_Store", File true);
                ("C:\dataset\c20-1.png", File true);
                ("C:\dataset\c10-3.png", File false) ];
     os_remove_log := [] |}.

(** A catalog over [disk]: [c10-9.png] and [c20-9.png] are not on it. *)
Definition catalog : dict (list string) :=
  [ ("c10", ["c10-1.png"; "c10-2.png"; "c10-3.png"; "c10-9.png"]);
    ("c20", ["c20-1.png"; "c20-2.png"; "c20-9.png"]) ].

(** A folder of four photos and its [.DS_Store], and what the photos
    decode to. *)
Definition script_disk : dict toy_image :=
  [ ("C:\dataset\c10-1.png", frame 480 640 0);
    ("C:\dataset\c10-2.png", frame 480 640 100);
    ("C:\dataset\c10-3.png", frame 480 640 150);
    ("C:\dataset\c20-1.png", frame 480 640 5000) ].

Definition script_world : world :=
  {| files := [ ("C:\dataset", Dir);
                ("C:\dataset\.DS_Store", File true);
                ("C:\dataset\c10-1.png", File true);
                ("C:\dataset\c10-2.png", File true);
                ("C:\dataset\c10-3.png", File true);
                ("C:\dataset\c20-1.png", File true) ];
     os_remove_log := [] |}.

End Example.

(** ** The script

    The [__main__] block builds the object on the dataset path and calls the
    three methods one after the other; an exception of one of them ends the
    run.  [cv2_imread] stands for what the files decode to while the
    detector runs; the detector itself changes no file. *)

Definition lift {A : Type} (o : outcome A) : io A := fun w => (o, w).

Definition run_script {P : OsPath} {I : Imaging} (path_to_dataset : string)
  (Gaussian_blur_radius_list_input : list Z)
  (score_threshold_input min_contour_area_input : Q) : io Z :=
  dataset_dict <- load_input path_to_dataset ;;
  unwanted <- lift (identify_similar_photos path_to_dataset
                      Gaussian_blur_radius_list_input score_threshold_input
                      min_contour_area_input dataset_dict) ;;
  remove_similar_photos path_to_dataset unwanted.

Definition main {P : OsPath} {I : Imaging} : io Z :=
  let path_to_dataset :=
    "C:\Kopernikus automotive\remove_duplicates_task\dataset-candidates-ml\dataset" in
  let Gaussian_blur_radius_list_input := [5; 7]%Z in
  let min_contour_area_input := inject_Z 50 in
  let score_threshold_input := inject_Z 750 in
  run_script path_to_dataset Gaussian_blur_radius_list_input
    score_threshold_input min_contour_area_input.

(** ** Vocabulary of the properties *)

(** [x in l] for names. *)
Definition mem (x : string) (l : list string) : bool := existsb (String.eqb x) l.

(** The distinct elements of a list, each at its first occurrence. *)
Definition add_key (seen : list string) (k : string) : list string :=
  if mem k seen then seen else seen ++ [k].

Definition first_occurrences (l : list string) : list string :=
  fold_left add_key l [].

(** All the file names of a catalog, camera after camera. *)
Definition catalog_names (d : dict (list string)) : list string :=
  List.concat (map snd d).

(** [subsequence s l]: [s] is [l] with some elements left out. *)
Inductive subsequence {A : Type} : list A -> list A -> Prop :=
| subsequence_nil : subsequence [] []
| subsequence_skip (x : A) (s l : list A) :
    subsequence s l -> subsequence s (x :: l)
| subsequence_take (x : A) (s l : list A) :
    subsequence s l -> subsequence (x :: s) (x :: l).

(** The names of a camera that [cv2.imread] does not decode. *)
Definition undecodable {P : OsPath} {I : Imaging} (folder : string)
  (names : list string) : list string :=
  filter (fun name =>
            match cv2_imread (os_path_join folder name) with
            | None => true
            | Some _ => false
            end) names.

(** The names of a camera that are left once the unwanted ones are gone. *)
Definition survivors (names unwanted : list string) : list string :=
  filter (fun name => negb (mem name unwanted)) names.

(** * Properties *)

(** ** Strings and dictionaries *)

Lemma strip_prefix_app (a n : string) : strip_prefix a (a ++ n) = Some n.
Proof.
  induction a as [|c a IH]; simpl; [reflexivity|].
  now rewrite Ascii.eqb_refl.
Qed.

Lemma strip_prefix_Some (a p n : string) :
  strip_prefix a p = Some n -> p = (a ++ n)%string.
Proof.
  revert p; induction a as [|c a IH]; intros p; simpl.
  - now intros [= ->].
  - destruct p as [|c' p]; [discriminate|].
    destruct (Ascii.eqb c c') eqn:E; [|discriminate].
    apply Ascii.eqb_eq in E; subst c'.
    intros Hs; now rewrite (IH _ Hs).
Qed.

Lemma append_inv_head (a x y : string) : (a ++ x = a ++ y)%string -> x = y.
Proof.
  induction a as [|c a IH]; simpl; [trivial|].
  intros [= E]; auto.
Qed.

Lemma append_assoc (a b c : string) : ((a ++ b) ++ c = a ++ (b ++ c))%string.
Proof.
  induction a as [|x a IH]; simpl; [reflexivity|now rewrite IH].
Qed.

Lemma append_neq_self (a b : string) : b <> "" -> (a ++ b)%string <> a.
Proof.
  intros Hb; induction a as [|c a IH]; simpl.
  - exact Hb.
  - intros [= E]; auto.
Qed.

Lemma child_name_Some (folder p n : string) :
  child_name folder p = Some n -> p = (folder ++ "\" ++ n)%string.
Proof.
  unfold child_name.
  destruct (strip_prefix (folder ++ "\") p) as [m|] eqn:E; [|discriminate].
  destruct ((m =? "") || has_sep m); [discriminate|].
  intros [= ->]. apply strip_prefix_Some in E. now rewrite append_assoc in E.
Qed.

Lemma child_name_marker (folder : string) :
  child_name folder (folder ++ "\.DS_Store") = Some ".DS_Store".
Proof.
  unfold child_name.
  change (folder ++ "\.DS_Store")%string with (folder ++ ("\" ++ ".DS_Store"))%string.
  rewrite <- append_assoc, strip_prefix_app. reflexivity.
Qed.

Lemma dict_get_set {V : Type} (k k' : string) (v : V) (d : dict V) :
  dict_get k (dict_set k' v d) = if k' =? k then Some v else dict_get k d.
Proof.
  induction d as [|[c w] d IH]; simpl.
  - reflexivity.
  - destruct (c =? k') eqn:E; simpl.
    + apply String.eqb_eq in E; subst c.
      destruct (k' =? k); reflexivity.
    + destruct (c =? k) eqn:E'; [|exact IH].
      apply String.eqb_eq in E'; subst c.
      rewrite String.eqb_sym in E. now rewrite E.
Qed.

Lemma dict_get_append {A : Type} (k k' : string) (x : A) (d : dict (list A)) :
  dict_get k (dict_append k' x d) =
    if k' =? k then option_map (fun v => v ++ [x]) (dict_get k d) else dict_get k d.
Proof.
  induction d as [|[c w] d IH]; simpl.
  - now destruct (k' =? k).
  - destruct (c =? k') eqn:E; simpl.
    + apply String.eqb_eq in E; subst c.
      destruct (k' =? k); reflexivity.
    + destruct (c =? k) eqn:E'.
      * apply String.eqb_eq in E'; subst c.
        rewrite String.eqb_sym in E. now rewrite E.
      * exact IH.
Qed.

(** ** The loader *)

(** What the loop of [load_input] adds to a dictionary it is started on. *)
Lemma populate_fold_get (listing : list string) (d : dict (list string)) (camera : string) :
  dict_get camera (fold_left populate_step listing d) =
    match dict_get camera d with
    | Some names => Some (names ++ filter (fun f => camera_of f =? camera) listing)
    | None =>
        match filter (fun f => camera_of f =? camera) listing with
        | [] => None
        | _ :: later => Some later
        end
    end.
Proof.
  revert d; induction listing as [|f listing IH]; intros d; simpl.
  - destruct (dict_get camera d); [now rewrite app_nil_r|reflexivity].
  - rewrite IH. unfold populate_step, dict_contains.
    destruct (dict_get (camera_of f) d) as [v|] eqn:G; simpl.
    + rewrite dict_get_append.
      destruct (camera_of f =? camera) eqn:E.
      * apply String.eqb_eq in E. rewrite <- E, G. simpl.
        now rewrite <- app_assoc.
      * reflexivity.
    + rewrite dict_get_set.
      destruct (camera_of f =? camera) eqn:E.
      * apply String.eqb_eq in E. rewrite <- E, G. reflexivity.
      * reflexivity.
Qed.

(** C2: for every folder listing and every camera key, the dictionary built
    by [load_input] has the key exactly when some listed name starts with
    it, and then maps it to the listed names with that prefix, in listing
    order, without the first of them: the name that created the key is not
    in the key's list. *)
Theorem populate_keeps_names_after_first (listing : list string) (camera : string) :
  dict_get camera (populate listing) =
    match filter (fun file_name => camera_of file_name =? camera) listing with
    | [] => None
    | _ :: later => Some later
    end.
Proof.
  unfold populate. now rewrite populate_fold_get.
Qed.

Lemma fs_lookup_delete_same (path : string) (fs : filesystem) :
  fs_lookup path (fs_delete path fs) = None.
Proof.
  induction fs as [|[p n] fs IH]; simpl; [reflexivity|].
  destruct (p =? path) eqn:E; simpl; [exact IH|].
  now rewrite E.
Qed.

Lemma fs_lookup_delete_other (path q : string) (fs : filesystem) :
  path <> q -> fs_lookup q (fs_delete path fs) = fs_lookup q fs.
Proof.
  intros Hne; induction fs as [|[p n] fs IH]; simpl; [reflexivity|].
  destruct (p =? path) eqn:E; simpl.
  - apply String.eqb_eq in E; subst p.
    apply String.eqb_neq in Hne. now rewrite Hne.
  - now rewrite IH.
Qed.

Lemma children_delete_marker (folder : string) (fs : filesystem) :
  children folder (fs_delete (folder ++ "\.DS_Store") fs) =
    filter (fun name => negb (name =? DS_Store)) (children folder fs).
Proof.
  induction fs as [|[p n] fs IH]; simpl; [reflexivity|].
  destruct (p =? (folder ++ "\.DS_Store")%string) eqn:E; simpl.
  - apply String.eqb_eq in E; subst p.
    rewrite child_name_marker. simpl. exact IH.
  - destruct (child_name folder p) as [name|] eqn:C; [|exact IH].
    simpl. destruct (name =? DS_Store) eqn:N; simpl.
    + apply String.eqb_eq in N; subst name.
      apply child_name_Some in C. subst p.
      now rewrite String.eqb_refl in E.
    + now rewrite IH.
Qed.

Lemma folder_is_not_marker (folder : string) : (folder ++ "\.DS_Store")%string <> folder.
Proof. apply append_neq_self. discriminate. Qed.

(** C7: in a folder that exists, [load_input] with no [.DS_Store] file in the
    folder raises nothing, leaves the files as they are and returns the
    grouping of the folder's listing; with a [.DS_Store] file that can be
    deleted it raises nothing either, the file is gone afterwards and the
    result is the grouping of the other names of the listing. *)
Theorem load_input_marker_file (folder : string) (w : world) :
  fs_lookup folder (files w) = Some Dir ->
  (fs_lookup (folder ++ "\.DS_Store") (files w) = None ->
   fst (load_input folder w) = Ok (populate (children folder (files w))) /\
   files (snd (load_input folder w)) = files w)
  /\
  (fs_lookup (folder ++ "\.DS_Store") (files w) = Some (File true) ->
   fst (load_input folder w) =
     Ok (populate (filter (fun name => negb (name =? DS_Store))
                          (children folder (files w)))) /\
   fs_lookup (folder ++ "\.DS_Store") (files (snd (load_input folder w))) = None).
Proof.
  intros Hdir; split; intros Hm.
  - unfold load_input, bind, try_except, os_remove, os_remove_result, os_listdir.
    rewrite Hm. simpl. rewrite Hdir. simpl. split; reflexivity.
  - unfold load_input, bind, try_except, os_remove, os_remove_result, os_listdir.
    rewrite Hm. simpl.
    rewrite (fs_lookup_delete_other _ _ _ (folder_is_not_marker folder)), Hdir.
    simpl. rewrite children_delete_marker, fs_lookup_delete_same.
    split; reflexivity.
Qed.

(** The folder of the example, once with its [.DS_Store] file and once
    after that file is gone. *)
Lemma load_input_marker_file_witness :
  fst (load_input Example.dataset Example.folder_world) =
    Ok [("c10", ["c10-2.png"; "c10-3.png"]); ("c20", [])] /\
  fst (load_input Example.dataset
         (snd (load_input Example.dataset Example.folder_world))) =
    Ok [("c10", ["c10-2.png"; "c10-3.png"]); ("c20", [])].
Proof.
  split.
  - exact (proj1 (proj2 (load_input_marker_file Example.dataset Example.folder_world
                           eq_refl) eq_refl)).
  - exact (proj1 (proj1 (load_input_marker_file Example.dataset
                           (snd (load_input Example.dataset Example.folder_world))
                           eq_refl) eq_refl)).
Defined.

(** ** The remover *)

Lemma succeeded_app (a b : list (string * option exn)) :
  succeeded (a ++ b) = (succeeded a + succeeded b)%Z.
Proof. unfold succeeded. rewrite filter_app, length_app. lia. Qed.

Lemma failed_app (a b : list (string * option exn)) :
  failed (a ++ b) = (failed a + failed b)%Z.
Proof. unfold failed. rewrite filter_app, length_app. lia. Qed.

(** One turn of the loop of [remove_similar_photos]: it returns, logs one
    call, and moves the counter up after a deletion and down after an
    exception. *)
Lemma remove_one_spec `{OsPath} (folder : string) (n : Z) (name : string) (w : world) :
  let path := os_path_join folder name in
  let r := os_remove_result path (files w) in
  fst (remove_one folder n name w) =
    Ok (match r with None => n + 1 | Some _ => n - 1 end)%Z /\
  os_remove_log (snd (remove_one folder n name w)) = os_remove_log w ++ [(path, r)].
Proof.
  unfold remove_one, try_except, bind, os_remove, ret, is_Exception. simpl.
  destruct (os_remove_result (os_path_join folder name) (files w)); simpl;
    split; reflexivity.
Qed.

(** The loop started with counter [n]: it returns, it has called [os.remove]
    once for every name, in order, and the counter has moved by the
    deletions minus the exceptions. *)
Lemma remove_loop_spec `{OsPath} (folder : string) (unwanted : list string) :
  forall (n : Z) (w : world),
  exists calls : list (string * option exn),
    os_remove_log (snd (for_io unwanted (remove_one folder) n w)) =
      os_remove_log w ++ calls /\
    map fst calls = map (os_path_join folder) unwanted /\
    fst (for_io unwanted (remove_one folder) n w) =
      Ok (n + succeeded calls - failed calls)%Z.
Proof.
  induction unwanted as [|name unwanted IH]; intros n w.
  - exists []. simpl. rewrite app_nil_r. repeat split. f_equal. unfold succeeded, failed; simpl; lia.
  - change (for_io (name :: unwanted) (remove_one folder) n w)
      with (bind (remove_one folder n name)
                 (fun n' => for_io unwanted (remove_one folder) n') w).
    unfold bind.
    pose proof (remove_one_spec folder n name w) as [Hres Hlog].
    destruct (remove_one folder n name w) as [[n'|e] w'] eqn:E; simpl in Hres, Hlog;
      [|discriminate].
    injection Hres as Hn'.
    destruct (IH n' w') as (calls & Hl & Hm & Hr).
    set (call := (os_path_join folder name,
                  os_remove_result (os_path_join folder name) (files w))) in *.
    exists ([call] ++ calls).
    rewrite Hl, Hlog, <- app_assoc. repeat split.
    + simpl. now rewrite Hm.
    + rewrite Hr. f_equal. subst n'.
      rewrite succeeded_app, failed_app. subst call.
      destruct (os_remove_result (os_path_join folder name) (files w)) as [e|].
      * change (succeeded [(os_path_join folder name, Some e)]) with 0%Z.
        change (failed [(os_path_join folder name, Some e)]) with 1%Z. lia.
      * change (succeeded [(os_path_join folder name, @None exn)]) with 1%Z.
        change (failed [(os_path_join folder name, @None exn)]) with 0%Z. lia.
Qed.

(** C8: for every list of unwanted names and every state of the files,
    [remove_similar_photos] returns without raising, and the calls of
    [os.remove] it has made are, in order, one for each name of the list,
    whatever the calls before it did. *)
Theorem remove_similar_photos_attempts_every_name `{OsPath}
  (folder : string) (unwanted : list string) (w : world) :
  (exists n : Z, fst (remove_similar_photos folder unwanted w) = Ok n) /\
  exists calls : list (string * option exn),
    os_remove_log (snd (remove_similar_photos folder unwanted w)) =
      os_remove_log w ++ calls /\
    map fst calls = map (os_path_join folder) unwanted.
Proof.
  destruct (remove_loop_spec folder unwanted 0%Z w) as (calls & Hl & Hm & Hr).
  split.
  - eexists; exact Hr.
  - exists calls; split; assumption.
Qed.

(** X15: what [remove_similar_photos] reports: the deletions minus the failures. *)
Lemma remove_similar_photos_reports_difference `{OsPath}
  (folder : string) (unwanted : list string) (w : world) :
  exists calls : list (string * option exn),
    os_remove_log (snd (remove_similar_photos folder unwanted w)) =
      os_remove_log w ++ calls /\
    fst (remove_similar_photos folder unwanted w) =
      Ok (succeeded calls - failed calls)%Z.
Proof.
  destruct (remove_loop_spec folder unwanted 0%Z w) as (calls & Hl & Hm & Hr).
  exists calls; split; [assumption|].
  unfold remove_similar_photos. rewrite Hr. reflexivity.
Qed.

(** C1: a name whose file is not in the folder: nothing is deleted, and the
    number reported is -1, not 0; with a file that is there before it, one
    file is deleted and the number reported is 0, not 1. *)
Theorem remove_similar_photos_failure_lowers_count :
  (let r := remove_similar_photos (H := Example.windows_path)
              Example.dataset ["c30-1.png"] Example.folder_world in
   fst r = Ok (-1)%Z /\ succeeded (os_remove_log (snd r)) = 0%Z) /\
  (let r := remove_similar_photos (H := Example.windows_path)
              Example.dataset ["c10-2.png"; "c30-1.png"] Example.folder_world in
   fst r = Ok 0%Z /\ succeeded (os_remove_log (snd r)) = 1%Z).
Proof. split; split; reflexivity. Qed.

(** ** The detector *)

Lemma Qltb_lt (a b : Q) : Qltb a b = true <-> (a < b)%Q.
Proof.
  unfold Qltb. rewrite negb_true_iff. split.
  - intros E. apply Qnot_le_lt. intros Hle.
    apply Qle_bool_iff in Hle. congruence.
  - intros Hlt. destruct (Qle_bool b a) eqn:E; [|reflexivity].
    apply Qle_bool_iff in E. exfalso. exact (Qlt_not_le _ _ Hlt E).
Qed.

Lemma Qltb_not_lt (a b : Q) : Qltb a b = false <-> ~ (a < b)%Q.
Proof.
  rewrite <- Qltb_lt. destruct (Qltb a b); split; congruence.
Qed.

Lemma shape_eqb_eq (a b : nat * nat * nat) : shape_eqb a b = true <-> a = b.
Proof.
  destruct a as [[a0 a1] a2], b as [[b0 b1] b2].
  unfold shape_eqb, dim0, dim1, dim2; simpl.
  rewrite !andb_true_iff, !Nat.eqb_eq. split.
  - intros [[-> ->] ->]; reflexivity.
  - intros [= -> -> ->]; auto.
Qed.

Lemma for_in_ext {A S : Type} (l : list A) (f g : S -> A -> outcome S) :
  (forall s x, f s x = g s x) -> forall s, for_in l f s = for_in l g s.
Proof.
  intros E; induction l as [|x l IH]; intros s; simpl; [reflexivity|].
  rewrite E. destruct (g s x); [apply IH|reflexivity].
Qed.

Lemma for_in_ext_in {A S : Type} (l : list A) (f g : S -> A -> outcome S) :
  (forall s x, In x l -> f s x = g s x) -> forall s, for_in l f s = for_in l g s.
Proof.
  induction l as [|x l IH]; intros E s; simpl; [reflexivity|].
  rewrite (E s x) by now left.
  destruct (g s x); [|reflexivity].
  apply IH. intros s' y Hy. apply E. now right.
Qed.

Lemma for_in_map {A B S : Type} (h : A -> B) (l : list A)
  (f : S -> B -> outcome S) (s : S) :
  for_in (map h l) f s = for_in l (fun s' x => f s' (h x)) s.
Proof.
  revert s; induction l as [|x l IH]; intros s; simpl; [reflexivity|].
  destruct (f s (h x)); [apply IH|reflexivity].
Qed.

Lemma dict_get_In {V : Type} (d : dict V) (k : string) (v : V) :
  NoDup (dict_keys d) -> In (k, v) d -> dict_get k d = Some v.
Proof.
  induction d as [|[k' v'] d IH]; simpl; intros Hnd Hin; [contradiction|].
  inversion Hnd as [|? ? Hnotin Hnd']; subst.
  destruct Hin as [[= -> ->]|Hin].
  - now rewrite String.eqb_refl.
  - destruct (k' =? k) eqn:E; [|now apply IH].
    apply String.eqb_eq in E; subst k'.
    exfalso. apply Hnotin. change k with (fst (k, v)). now apply in_map.
Qed.

Lemma Permutation_concat_lists {A : Type} (ls ls' : list (list A)) :
  Permutation ls ls' -> Permutation (List.concat ls) (List.concat ls').
Proof.
  induction 1 as [|x l l' _ IH|x y l|l l' l'' _ IH1 _ IH2]; simpl.
  - apply Permutation_refl.
  - now apply Permutation_app_head.
  - rewrite !app_assoc. apply Permutation_app_tail, Permutation_app_comm.
  - now apply Permutation_trans with (List.concat l').
Qed.

Section DetectorProperties.
Context {P : OsPath} {I : Imaging}.
Variable folder : string.
Variable radii : list Z.
Variable threshold : Q.
Variable min_area : Q.

Local Abbreviation step := (visit folder radii threshold min_area).
Local Abbreviation body := (loop_body folder radii threshold min_area).
Local Abbreviation walk := (camera_loop folder radii threshold min_area).
Local Abbreviation camera := (identify_camera folder radii threshold min_area).
Local Abbreviation detect := (identify_similar_photos folder radii threshold min_area).
Local Abbreviation gray img := (preprocess_image_change_detection img radii).
Local Abbreviation EMPTY unwanted :=
  {| current_image := None; unwanted_images := unwanted |}.

(** The loop over the indices visits the names one after the other. *)
Lemma for_in_seq_shift (name : string) (names : list string) (len start : nat)
  (st : loop_state) :
  for_in (seq (S start) len) (body (name :: names)) st =
  for_in (seq start len) (body names) st.
Proof.
  revert start st; induction len as [|len IH]; intros start st; simpl;
    [reflexivity|].
  unfold loop_body at 1 3. simpl nth_error.
  destruct (nth_error names start) as [n|]; [|reflexivity].
  destruct (step st n); [apply IH|reflexivity].
Qed.

Lemma walk_nil (st : loop_state) : walk [] st = Ok st.
Proof. reflexivity. Qed.

Lemma walk_cons (name : string) (names : list string) (st : loop_state) :
  walk (name :: names) st =
    match step st name with
    | Ok st' => walk names st'
    | Raise e => Raise e
    end.
Proof.
  unfold camera_loop.
  change (seq 0 (List.length (name :: names)))
    with (0%nat :: seq 1 (List.length names)).
  change (for_in (0%nat :: ?l) ?f st)
    with (match f st 0%nat with Ok s' => for_in l f s' | Raise e => Raise e end).
  change (body (name :: names) st 0%nat) with (step st name).
  destruct (step st name); [apply for_in_seq_shift|reflexivity].
Qed.

Lemma walk_app (names names' : list string) (st : loop_state) :
  walk (names ++ names') st =
    match walk names st with
    | Ok st' => walk names' st'
    | Raise e => Raise e
    end.
Proof.
  revert st; induction names as [|name names IH]; intros st.
  - reflexivity.
  - simpl app. rewrite !walk_cons.
    destruct (step st name); [apply IH|reflexivity].
Qed.

Lemma step_decode_failure (st : loop_state) (name : string) :
  cv2_imread (os_path_join folder name) = None ->
  step st name = Ok {| current_image := current_image st;
                       unwanted_images := unwanted_images st ++ [name] |}.
Proof. intros E. unfold visit. now rewrite E. Qed.

(** Names that do not decode are appended one by one; the state of the
    camera stays. *)
Lemma walk_decode_failures (names : list string) (st : loop_state) :
  (forall n, In n names -> cv2_imread (os_path_join folder n) = None) ->
  walk names st = Ok {| current_image := current_image st;
                        unwanted_images := unwanted_images st ++ names |}.
Proof.
  revert st; induction names as [|name names IH]; intros st Hall.
  - rewrite walk_nil, app_nil_r. now destruct st.
  - rewrite walk_cons, step_decode_failure by (apply Hall; now left).
    rewrite IH by (intros n Hn; apply Hall; now right).
    simpl. now rewrite <- app_assoc.
Qed.

(** A turn appends the visited name or nothing. *)
Lemma step_unwanted (st st' : loop_state) (name : string) :
  step st name = Ok st' ->
  unwanted_images st' = unwanted_images st ++ [name] \/
  unwanted_images st' = unwanted_images st.
Proof.
  unfold visit.
  destruct (cv2_imread (os_path_join folder name)) as [img|].
  - destruct (current_image st) as [cur|].
    + destruct (compare_frames_change_detection _ _ _) as [score|]; [|discriminate].
      destruct (Qltb score threshold); intros [= <-]; simpl; auto.
    + intros [= <-]; simpl; auto.
  - intros [= <-]; simpl; auto.
Qed.

Lemma walk_unwanted (names : list string) (st st' : loop_state) :
  walk names st = Ok st' ->
  exists added, unwanted_images st' = unwanted_images st ++ added /\
                incl added names.
Proof.
  revert st; induction names as [|name names IH]; intros st.
  - rewrite walk_nil. intros [= <-]. exists []. rewrite app_nil_r.
    split; [reflexivity|apply incl_nil_l].
  - rewrite walk_cons. destruct (step st name) as [st1|] eqn:E; [|discriminate].
    intros Hw. destruct (IH _ Hw) as (added & Hu & Hi).
    destruct (step_unwanted _ _ _ E) as [H1|H1]; rewrite H1 in Hu.
    + exists (name :: added). rewrite <- app_assoc in Hu. split; [exact Hu|].
      intros x [<-|Hx]; [now left|right; auto].
    + exists added. split; [exact Hu|]. intros x Hx; right; auto.
Qed.

(** C4: when [cv2.imread] returns [None] for a name, the turn appends the
    name to the unwanted images, leaves [current_image] as it was, whether
    it holds an image or is still [None], and the loop goes on with the
    next name from that state. *)
Theorem undecodable_name_is_unwanted (st : loop_state) (name : string)
  (rest : list string) :
  cv2_imread (os_path_join folder name) = None ->
  let st' := {| current_image := current_image st;
                unwanted_images := unwanted_images st ++ [name] |} in
  step st name = Ok st' /\ walk (name :: rest) st = walk rest st'.
Proof.
  intros E st'. rewrite walk_cons, (step_decode_failure st name E).
  split; reflexivity.
Qed.

(** C3: in a turn with a representative [current] and a decoded candidate,
    let [score] be the score of the two preprocessed images, the candidate
    taken as it is compared ([reconcile]).  If [score < threshold], the
    candidate's name is appended and the loop goes on with the same
    representative; otherwise nothing is appended and the loop goes on
    with the candidate as representative. *)
Theorem score_decides_candidate (st : loop_state) (name : string)
  (rest : list string) (img current : image) (score : Q) :
  cv2_imread (os_path_join folder name) = Some img ->
  current_image st = Some current ->
  compare_frames_change_detection
    (gray current) (gray (reconcile current img)) min_area = Ok score ->
  ((score < threshold)%Q ->
   let st' := {| current_image := Some current;
                 unwanted_images := unwanted_images st ++ [name] |} in
   step st name = Ok st' /\ walk (name :: rest) st = walk rest st')
  /\
  (~ (score < threshold)%Q ->
   let st' := {| current_image := Some (reconcile current img);
                 unwanted_images := unwanted_images st |} in
   step st name = Ok st' /\ walk (name :: rest) st = walk rest st').
Proof.
  intros Hread Hcur Hscore.
  assert (Hstep : step st name =
            if Qltb score threshold
            then Ok {| current_image := Some current;
                       unwanted_images := unwanted_images st ++ [name] |}
            else Ok {| current_image := Some (reconcile current img);
                       unwanted_images := unwanted_images st |}).
  { unfold visit. rewrite Hread, Hcur, Hscore. reflexivity. }
  split; intros Hlt st'; rewrite walk_cons, Hstep.
  - apply Qltb_lt in Hlt. rewrite Hlt. split; reflexivity.
  - apply Qltb_not_lt in Hlt. rewrite Hlt. split; reflexivity.
Qed.

Lemma step_first_decoded (unwanted : list string) (name : string) (img : image) :
  cv2_imread (os_path_join folder name) = Some img ->
  step (EMPTY unwanted) name =
    Ok {| current_image := Some img; unwanted_images := unwanted |}.
Proof. intros E. unfold visit. now rewrite E. Qed.

(** C6: let a camera's names be [pre], then [name], then [post], where no
    name of [pre] decodes and [name] decodes to [img].  After the turn of
    [name] the unwanted images are those of before and [pre], without
    [name], and [img] is the representative; this is so for every
    comparison function, also one that raises whenever it is called, so
    none is called up to there.  If no name of [post] decodes either, the
    camera adds exactly [pre] and [post], the names that did not decode.
    In any case, when the loop ends and [name] is not listed a second
    time, [name] is not among the names the camera added. *)
Theorem first_decoded_frame_is_kept (pre post : list string) (name : string)
  (img : image) (unwanted : list string) :
  (forall n, In n pre -> cv2_imread (os_path_join folder n) = None) ->
  cv2_imread (os_path_join folder name) = Some img ->
  walk (pre ++ [name]) (EMPTY unwanted) =
    Ok {| current_image := Some img; unwanted_images := unwanted ++ pre |}
  /\
  ((forall n, In n post -> cv2_imread (os_path_join folder n) = None) ->
   camera (pre ++ name :: post) unwanted = Ok (unwanted ++ pre ++ post))
  /\
  (forall st' : loop_state,
     walk (pre ++ name :: post) (EMPTY unwanted) = Ok st' ->
     ~ In name post ->
     exists later, unwanted_images st' = unwanted ++ pre ++ later /\
                   ~ In name (pre ++ later)).
Proof.
  intros Hpre Hname.
  assert (Hturn : walk (pre ++ [name]) (EMPTY unwanted) =
            Ok {| current_image := Some img; unwanted_images := unwanted ++ pre |}).
  { rewrite walk_app, (walk_decode_failures pre _ Hpre). simpl.
    rewrite walk_cons, (step_first_decoded _ _ _ Hname). apply walk_nil. }
  assert (Hsplit : pre ++ name :: post = (pre ++ [name]) ++ post)
    by now rewrite <- app_assoc.
  split; [exact Hturn|split].
  - intros Hpost. unfold identify_camera.
    rewrite Hsplit, walk_app, Hturn, (walk_decode_failures post _ Hpost). simpl.
    now rewrite <- app_assoc.
  - intros st' Hwalk Hnotin.
    rewrite Hsplit, walk_app, Hturn in Hwalk.
    destruct (walk_unwanted _ _ _ Hwalk) as (later & Hu & Hincl). simpl in Hu.
    exists later. split; [now rewrite Hu, <- app_assoc|].
    intros Hin. apply in_app_or in Hin as [Hin|Hin].
    + rewrite (Hpre _ Hin) in Hname. discriminate.
    + apply Hnotin, Hincl, Hin.
Qed.

(** The names a camera adds do not depend on the names collected before. *)
Lemma step_frame (acc : list string) (st : loop_state) (name : string) :
  step {| current_image := current_image st;
          unwanted_images := acc ++ unwanted_images st |} name =
    match step st name with
    | Ok st' => Ok {| current_image := current_image st';
                      unwanted_images := acc ++ unwanted_images st' |}
    | Raise e => Raise e
    end.
Proof.
  unfold visit; simpl.
  destruct (cv2_imread (os_path_join folder name)) as [img|]; simpl.
  - destruct (current_image st) as [cur|]; simpl; [|reflexivity].
    destruct (compare_frames_change_detection _ _ _) as [score|]; [|reflexivity].
    destruct (Qltb score threshold); simpl; [|reflexivity].
    now rewrite app_assoc.
  - now rewrite app_assoc.
Qed.

Lemma walk_frame (acc : list string) (names : list string) (st : loop_state) :
  walk names {| current_image := current_image st;
                unwanted_images := acc ++ unwanted_images st |} =
    match walk names st with
    | Ok st' => Ok {| current_image := current_image st';
                      unwanted_images := acc ++ unwanted_images st' |}
    | Raise e => Raise e
    end.
Proof.
  revert st; induction names as [|name names IH]; intros st.
  - reflexivity.
  - rewrite !walk_cons, step_frame.
    destruct (step st name) as [st1|]; [apply IH|reflexivity].
Qed.

Lemma camera_frame (names acc : list string) :
  camera names acc =
    match camera names [] with
    | Ok removed => Ok (acc ++ removed)
    | Raise e => Raise e
    end.
Proof.
  unfold identify_camera.
  pose proof (walk_frame acc names (EMPTY [])) as Hf. simpl in Hf.
  rewrite app_nil_r in Hf. rewrite Hf.
  destruct (walk names (EMPTY [])); reflexivity.
Qed.

(** Two frames of one camera, the second scoring below the threshold
    against the first: the camera adds the second name. *)
Lemma camera_of_two_duplicates (n1 n2 : string) (i1 i2 : image) (score : Q) :
  cv2_imread (os_path_join folder n1) = Some i1 ->
  cv2_imread (os_path_join folder n2) = Some i2 ->
  compare_frames_change_detection (gray i1) (gray (reconcile i1 i2)) min_area
    = Ok score ->
  (score < threshold)%Q ->
  camera [n1; n2] [] = Ok [n2].
Proof.
  intros H1 H2 Hs Hlt. unfold identify_camera.
  rewrite walk_cons, (step_first_decoded _ _ _ H1), walk_cons.
  unfold visit. simpl. rewrite H2, Hs.
  apply Qltb_lt in Hlt. rewrite Hlt. reflexivity.
Qed.

(** Over a dictionary with one entry per key, the outer loop runs through
    the entries, and it returns exactly when every camera's own walk does;
    the result is then the cameras' results one after the other. *)
Lemma detect_entries (d : dict (list string)) :
  NoDup (dict_keys d) ->
  detect d =
    for_in d
      (fun acc entry =>
         match camera (snd entry) [] with
         | Ok removed => Ok (acc ++ removed)
         | Raise e => Raise e
         end)
      [].
Proof.
  intros Hnd. unfold identify_similar_photos, dict_keys.
  rewrite for_in_map. apply for_in_ext_in.
  intros acc [k names] Hin. simpl.
  rewrite (dict_get_In d k names Hnd Hin). apply camera_frame.
Qed.

Lemma collect_cameras (entries : dict (list string)) :
  forall acc result : list string,
  for_in entries
    (fun acc entry =>
       match camera (snd entry) [] with
       | Ok removed => Ok (acc ++ removed)
       | Raise e => Raise e
       end)
    acc = Ok result <->
  exists parts : list (list string),
    Forall2 (fun entry part => camera (snd entry) [] = Ok part) entries parts /\
    result = acc ++ List.concat parts.
Proof.
  induction entries as [|entry entries IH]; intros acc result; simpl.
  - split.
    + intros [= <-]. exists []. split; [constructor|now rewrite app_nil_r].
    + intros (parts & HF & ->). inversion HF; subst. simpl. now rewrite app_nil_r.
  - destruct (camera (snd entry) []) as [part|e] eqn:E.
    + rewrite IH. split.
      * intros (parts & HF & ->). exists (part :: parts).
        split; [now constructor|]. simpl. now rewrite app_assoc.
      * intros (parts & HF & ->). inversion HF as [|? p ? ps Hp HF']; subst.
        rewrite E in Hp. injection Hp as <-.
        exists ps. split; [assumption|]. simpl. now rewrite app_assoc.
    + split; [discriminate|].
      intros (parts & HF & _). inversion HF as [|? p ? ps Hp HF']; subst.
      rewrite E in Hp. discriminate.
Qed.

(** The cameras taken in another order: the detector returns again, with
    the same names in another order. *)
Lemma detect_Permutation (d d' : dict (list string)) (removed : list string) :
  NoDup (dict_keys d) ->
  Permutation d d' ->
  detect d = Ok removed ->
  exists removed',
    detect d' = Ok removed' /\ Permutation removed removed'.
Proof.
  intros Hnd Hperm Hd.
  assert (Hnd' : NoDup (dict_keys d')).
  { apply Permutation_NoDup with (dict_keys d); [|assumption].
    unfold dict_keys. now apply Permutation_map. }
  rewrite detect_entries in Hd by assumption.
  apply collect_cameras in Hd as (parts & HF & ->).
  destruct (Permutation_Forall2 Hperm HF) as (parts' & Hpp & HF').
  exists (List.concat parts'). split.
  - rewrite detect_entries by assumption. apply collect_cameras.
    exists parts'. split; [assumption|reflexivity].
  - simpl. now apply Permutation_concat_lists.
Qed.

(** C9: every camera is walked from [current_image = None], and what it adds
    to the unwanted images is computed from its own names: walking a camera
    after other names were collected gives those names followed by what the
    camera gives on its own, so the whole result is the cameras' own
    results one after the other.  With two cameras of two frames each,
    where in each the second frame scores below the threshold against the
    first, the result has two names, the two second frames, in either
    order of the cameras.  For any dictionary, taking its cameras in
    another order gives the same names in another order, so as many. *)
Theorem cameras_are_independent :
  (forall names acc : list string,
     camera names acc =
       match camera names [] with
       | Ok removed => Ok (acc ++ removed)
       | Raise e => Raise e
       end)
  /\
  (forall dataset_dict : dict (list string),
     detect dataset_dict =
       for_in (dict_keys dataset_dict)
         (fun acc cam =>
            match dict_get cam dataset_dict with
            | None => Raise KeyError
            | Some names =>
                match camera names [] with
                | Ok removed => Ok (acc ++ removed)
                | Raise e => Raise e
                end
            end)
         [])
  /\
  (forall (camA camB a1 a2 b1 b2 : string) (ia1 ia2 ib1 ib2 : image) (sa sb : Q),
     camA <> camB ->
     cv2_imread (os_path_join folder a1) = Some ia1 ->
     cv2_imread (os_path_join folder a2) = Some ia2 ->
     cv2_imread (os_path_join folder b1) = Some ib1 ->
     cv2_imread (os_path_join folder b2) = Some ib2 ->
     compare_frames_change_detection (gray ia1) (gray (reconcile ia1 ia2)) min_area
       = Ok sa ->
     compare_frames_change_detection (gray ib1) (gray (reconcile ib1 ib2)) min_area
       = Ok sb ->
     (sa < threshold)%Q ->
     (sb < threshold)%Q ->
     detect [(camA, [a1; a2]); (camB, [b1; b2])] = Ok [a2; b2] /\
     detect [(camB, [b1; b2]); (camA, [a1; a2])] = Ok [b2; a2])
  /\
  (forall (d d' : dict (list string)) (removed : list string),
     NoDup (dict_keys d) ->
     Permutation d d' ->
     detect d = Ok removed ->
     exists removed',
       detect d' = Ok removed' /\
       Permutation removed removed' /\
       List.length removed' = List.length removed).
Proof.
  split; [exact camera_frame|split; [|split]].
  3: { intros d d' removed Hnd Hperm Hd.
       destruct (detect_Permutation d d' removed Hnd Hperm Hd) as (r' & Hr & Hp).
       exists r'. repeat split; try assumption.
       symmetry. now apply Permutation_length. }
  - intros d. unfold identify_similar_photos. apply for_in_ext.
    intros acc cam. destruct (dict_get cam d); [apply camera_frame|reflexivity].
  - intros camA camB a1 a2 b1 b2 ia1 ia2 ib1 ib2 sa sb Hne Ha1 Ha2 Hb1 Hb2 Hsa Hsb Hlta Hltb.
    pose proof (camera_of_two_duplicates _ _ _ _ _ Ha1 Ha2 Hsa Hlta) as HA.
    pose proof (camera_of_two_duplicates _ _ _ _ _ Hb1 Hb2 Hsb Hltb) as HB.
    assert (Eab : (camA =? camB) = false) by now apply String.eqb_neq.
    assert (Eba : (camB =? camA) = false)
      by (apply String.eqb_neq; congruence).
    unfold identify_similar_photos; simpl.
    rewrite !String.eqb_refl, Eab, Eba.
    rewrite HA, HB, (camera_frame _ [a2]), (camera_frame _ [b2]), HA, HB.
    split; reflexivity.
Qed.

(** *** What the detector relies on from OpenCV and [imaging_interview]

    [cv2.resize] returns an image of the requested size, given as
    (width, height), with the channels of its input; preprocessing keeps
    height and width; two gray images of one size can be compared. *)

Hypothesis cv2_resize_shape :
  forall (img : image) (width height : nat),
    shape (cv2_resize img (width, height)) = (height, width, dim2 (shape img)).

Hypothesis preprocess_shape :
  forall (img : image) (blur : list Z),
    gray_shape (preprocess_image_change_detection img blur) = height_width img.

Hypothesis compare_defined :
  forall (a b : gray_image) (area : Q),
    gray_shape a = gray_shape b ->
    exists score, compare_frames_change_detection a b area = Ok score.

Lemma reconcile_resizes (current img : image) :
  shape current <> shape img ->
  reconcile current img =
    cv2_resize img (dim1 (shape current), dim0 (shape current)).
Proof.
  intros Hne. unfold reconcile.
  destruct (shape_eqb (shape current) (shape img)) eqn:E; [|reflexivity].
  apply shape_eqb_eq in E. contradiction.
Qed.

Lemma reconcile_height_width (current img : image) :
  height_width (reconcile current img) = height_width current.
Proof.
  unfold reconcile.
  destruct (shape_eqb (shape current) (shape img)) eqn:E; simpl.
  - apply shape_eqb_eq in E. unfold height_width. now rewrite E.
  - unfold height_width. rewrite cv2_resize_shape. reflexivity.
Qed.

Lemma compare_reconciled (current img : image) :
  exists score,
    compare_frames_change_detection (gray current) (gray (reconcile current img))
      min_area = Ok score.
Proof.
  apply compare_defined.
  now rewrite !preprocess_shape, reconcile_height_width.
Qed.

(** A turn with a representative returns, and the representative after it
    has the height and width of the one before. *)
Lemma step_keeps_size (st : loop_state) (name : string) (current : image) :
  current_image st = Some current ->
  exists st' current',
    step st name = Ok st' /\
    current_image st' = Some current' /\
    height_width current' = height_width current.
Proof.
  intros Hcur. unfold visit. rewrite Hcur.
  destruct (cv2_imread (os_path_join folder name)) as [img|].
  - destruct (compare_reconciled current img) as [score Hs]. rewrite Hs.
    destruct (Qltb score threshold); eexists; eexists; simpl;
      (split; [reflexivity|split; [reflexivity|]]);
      [reflexivity|apply reconcile_height_width].
  - eexists; exists current; simpl. repeat split; reflexivity.
Qed.

Lemma walk_keeps_size (names : list string) :
  forall (st : loop_state) (current : image),
  current_image st = Some current ->
  exists st' current',
    walk names st = Ok st' /\
    current_image st' = Some current' /\
    height_width current' = height_width current.
Proof.
  induction names as [|name names IH]; intros st current Hcur.
  - exists st, current. rewrite walk_nil. repeat split; assumption.
  - destruct (step_keeps_size st name current Hcur) as (st1 & cur1 & Hs & Hc1 & Hhw1).
    destruct (IH st1 cur1 Hc1) as (st2 & cur2 & Hw & Hc2 & Hhw2).
    exists st2, cur2. rewrite walk_cons, Hs. repeat split; try assumption.
    congruence.
Qed.

Lemma walk_from_empty (names : list string) :
  forall unwanted : list string,
  exists st',
    walk names (EMPTY unwanted) = Ok st' /\
    match first_decoded folder names with
    | None => current_image st' = None
    | Some first =>
        exists current,
          current_image st' = Some current /\
          height_width current = height_width first
    end.
Proof.
  induction names as [|name names IH]; intros unwanted.
  - exists (EMPTY unwanted). split; reflexivity.
  - rewrite walk_cons. simpl first_decoded.
    destruct (cv2_imread (os_path_join folder name)) as [img|] eqn:E.
    + rewrite (step_first_decoded _ _ _ E).
      destruct (walk_keeps_size names
                  {| current_image := Some img; unwanted_images := unwanted |}
                  img eq_refl) as (st' & cur & Hw & Hc & Hhw).
      exists st'. split; [exact Hw|]. exists cur. split; assumption.
    + rewrite (step_decode_failure _ _ E). simpl. apply IH.
Qed.

(** C5: in a turn with a representative [current] and a decoded candidate
    of another shape, the candidate is resized by [cv2.resize] to the
    representative's (width, height) before anything else: the resized
    image has the representative's height and width, it is the resized
    image that is preprocessed and scored against the representative, the
    comparison returns a score, and the turn returns what that score
    decides: below the threshold the name is appended and the
    representative stays, otherwise nothing is appended and the resized
    image is the new representative.  Nothing is raised. *)
Theorem mismatched_candidate_is_resized (st : loop_state) (name : string)
  (img current : image) :
  cv2_imread (os_path_join folder name) = Some img ->
  current_image st = Some current ->
  shape current <> shape img ->
  let resized := cv2_resize img (dim1 (shape current), dim0 (shape current)) in
  reconcile current img = resized /\
  height_width resized = height_width current /\
  exists score : Q,
    compare_frames_change_detection (gray current) (gray resized) min_area
      = Ok score /\
    ((score < threshold)%Q ->
     step st name =
       Ok {| current_image := Some current;
             unwanted_images := unwanted_images st ++ [name] |}) /\
    (~ (score < threshold)%Q ->
     step st name =
       Ok {| current_image := Some resized;
             unwanted_images := unwanted_images st |}).
Proof.
  intros Hread Hcur Hne resized.
  pose proof (reconcile_resizes current img Hne) as Hrec.
  fold resized in Hrec.
  split; [exact Hrec|].
  split; [rewrite <- Hrec; apply reconcile_height_width|].
  destruct (compare_reconciled current img) as [score Hs].
  rewrite Hrec in Hs.
  exists score. split; [exact Hs|].
  assert (Hstep : step st name =
            if Qltb score threshold
            then Ok {| current_image := Some current;
                       unwanted_images := unwanted_images st ++ [name] |}
            else Ok {| current_image := Some resized;
                       unwanted_images := unwanted_images st |}).
  { unfold visit. rewrite Hread, Hcur. cbv zeta. rewrite Hrec, Hs. reflexivity. }
  split; intros Hlt; rewrite Hstep.
  - apply Qltb_lt in Hlt. now rewrite Hlt.
  - apply Qltb_not_lt in Hlt. now rewrite Hlt.
Qed.

(** C10: when a candidate of another shape than the representative scores
    at or above the threshold, the new representative is the resized
    candidate, of the height and width of the old one.  So after any number
    of turns of a camera's loop, the loop has not raised and the
    representative, once there is one, has the height and width of the
    first image of the camera that decoded. *)
Theorem representative_keeps_first_size :
  (forall (st : loop_state) (name : string) (img current : image) (score : Q),
     cv2_imread (os_path_join folder name) = Some img ->
     current_image st = Some current ->
     shape current <> shape img ->
     compare_frames_change_detection (gray current) (gray (reconcile current img))
       min_area = Ok score ->
     ~ (score < threshold)%Q ->
     let resized := cv2_resize img (dim1 (shape current), dim0 (shape current)) in
     step st name = Ok {| current_image := Some resized;
                          unwanted_images := unwanted_images st |} /\
     height_width resized = height_width current)
  /\
  (forall (names : list string) (turns : nat) (unwanted : list string),
   exists st' : loop_state,
     walk (firstn turns names) (EMPTY unwanted) = Ok st' /\
     match first_decoded folder names with
     | None => current_image st' = None
     | Some first =>
         current_image st' = None \/
         exists current,
           current_image st' = Some current /\
           height_width current = height_width first
     end).
Proof.
  split.
  - intros st name img current score Hread Hcur Hne Hs Hge resized.
    subst resized. rewrite <- (reconcile_resizes _ _ Hne).
    split; [|apply reconcile_height_width].
    unfold visit. rewrite Hread, Hcur, Hs.
    apply Qltb_not_lt in Hge. now rewrite Hge.
  - intros names turns unwanted.
    destruct (walk_from_empty (firstn turns names) unwanted) as (st' & Hw & Hinv).
    exists st'. split; [exact Hw|].
    revert Hinv. generalize (current_image st'). clear Hw.
    revert turns. induction names as [|name names IH]; intros turns c.
    + rewrite firstn_nil. simpl. trivial.
    + destruct turns as [|turns]; simpl.
      * intros ->. destruct (cv2_imread (os_path_join folder name)); [now left|].
        destruct (first_decoded folder names); [now left|reflexivity].
      * destruct (cv2_imread (os_path_join folder name)) as [img|].
        -- intros H. now right.
        -- apply IH.
Qed.

End DetectorProperties.

(** ** The example instance meets the contracts, and the properties on it *)

Lemma toy_resize_shape (disk : dict Example.toy_image) :
  forall (img : @image (Example.toy_imaging disk)) (width height : nat),
    shape (cv2_resize img (width, height)) = (height, width, dim2 (shape img)).
Proof. intros img width height. reflexivity. Qed.

Lemma toy_preprocess_shape (disk : dict Example.toy_image) :
  forall (img : @image (Example.toy_imaging disk)) (blur : list Z),
    gray_shape (preprocess_image_change_detection img blur) = height_width img.
Proof. intros img blur. reflexivity. Qed.

Lemma toy_compare_defined (disk : dict Example.toy_image) :
  forall (a b : @gray_image (Example.toy_imaging disk)) (area : Q),
    gray_shape a = gray_shape b ->
    exists score, compare_frames_change_detection a b area = Ok score.
Proof.
  intros [[ra ca] xa] [[rb cb] xb] area. simpl. intros [= -> ->].
  unfold Example.toy_compare. simpl. rewrite !Nat.eqb_refl. simpl.
  eexists; reflexivity.
Qed.

(** A name that is not on the disk, met before any image was decoded. *)
Lemma undecodable_name_is_unwanted_witness :
  let I := Example.toy_imaging Example.disk in
  let P := Example.windows_path in
  let st := {| current_image := None; unwanted_images := [] |} in
  let st' := {| current_image := None; unwanted_images := ["c10-0.png"] |} in
  visit Example.dataset Example.radii Example.threshold Example.min_area
    st "c10-0.png" = Ok st' /\
  camera_loop Example.dataset Example.radii Example.threshold Example.min_area
    ["c10-0.png"; "c10-1.png"] st =
  camera_loop Example.dataset Example.radii Example.threshold Example.min_area
    ["c10-1.png"] st'.
Proof.
  intros I P st st'.
  exact (undecodable_name_is_unwanted (P := P) (I := I)
           Example.dataset Example.radii Example.threshold Example.min_area
           st "c10-0.png" ["c10-1.png"] eq_refl).
Defined.

(** [c10-2.png] scores 100 against [c10-1.png] and is unwanted;
    [c10-3.png] scores 2000 and takes its place. *)
Lemma score_decides_candidate_witness :
  let I := Example.toy_imaging Example.disk in
  let P := Example.windows_path in
  let first := Example.frame 480 640 0 in
  let st := {| current_image := Some first; unwanted_images := [] |} in
  visit Example.dataset Example.radii Example.threshold Example.min_area
    st "c10-2.png" =
    Ok {| current_image := Some first; unwanted_images := ["c10-2.png"] |} /\
  visit Example.dataset Example.radii Example.threshold Example.min_area
    st "c10-3.png" =
    Ok {| current_image := Some (Example.frame 480 640 2000);
          unwanted_images := [] |}.
Proof.
  intros I P first st. split.
  - refine (proj1 (proj1 (score_decides_candidate (P := P) (I := I)
             Example.dataset Example.radii Example.threshold Example.min_area
             st "c10-2.png" [] (Example.frame 480 640 100) first (inject_Z 100)
             eq_refl eq_refl eq_refl) _)).
    reflexivity.
  - refine (proj1 (proj2 (score_decides_candidate (P := P) (I := I)
             Example.dataset Example.radii Example.threshold Example.min_area
             st "c10-3.png" [] (Example.frame 1080 1920 2000) first (inject_Z 2000)
             eq_refl eq_refl eq_refl) _)).
    intros Hlt. discriminate Hlt.
Defined.

(** [c10-3.png] is 1080 by 1920 and the representative 480 by 640: the
    candidate is scored at 480 by 640, and becomes the representative at
    that size since its score, 2000, is not below 750. *)
Lemma mismatched_candidate_is_resized_witness :
  let I := Example.toy_imaging Example.disk in
  let P := Example.windows_path in
  let first := Example.frame 480 640 0 in
  let third := Example.frame 1080 1920 2000 in
  let st := {| current_image := Some first; unwanted_images := [] |} in
  let resized := cv2_resize third (640%nat, 480%nat) in
  reconcile first third = resized /\
  height_width resized = (480%nat, 640%nat) /\
  exists score : Q,
    compare_frames_change_detection
      (preprocess_image_change_detection first Example.radii)
      (preprocess_image_change_detection resized Example.radii)
      Example.min_area = Ok score /\
    ((score < Example.threshold)%Q ->
     visit Example.dataset Example.radii Example.threshold Example.min_area
       st "c10-3.png" =
       Ok {| current_image := Some first; unwanted_images := ["c10-3.png"] |}) /\
    (~ (score < Example.threshold)%Q ->
     visit Example.dataset Example.radii Example.threshold Example.min_area
       st "c10-3.png" =
       Ok {| current_image := Some resized; unwanted_images := [] |}).
Proof.
  intros I P first third st resized.
  refine (mismatched_candidate_is_resized (P := P) (I := I)
            Example.dataset Example.radii Example.threshold Example.min_area
            (toy_resize_shape _) (toy_preprocess_shape _) (toy_compare_defined _)
            st "c10-3.png" third first eq_refl eq_refl _).
  discriminate.
Defined.

(** One decoded frame between two names that are not on the disk, with a
    comparison that raises whenever it is called. *)
Lemma first_decoded_frame_is_kept_witness :
  let I := Example.no_compare_imaging Example.disk in
  let P := Example.windows_path in
  let first := Example.frame 480 640 0 in
  camera_loop Example.dataset Example.radii Example.threshold Example.min_area
    ["c10-0.png"; "c10-1.png"]
    {| current_image := None; unwanted_images := [] |} =
    Ok {| current_image := Some first; unwanted_images := ["c10-0.png"] |} /\
  identify_camera Example.dataset Example.radii Example.threshold Example.min_area
    ["c10-0.png"; "c10-1.png"; "c10-9.png"] [] =
    Ok ["c10-0.png"; "c10-9.png"] /\
  exists later,
    ["c10-0.png"; "c10-9.png"] = ["c10-0.png"] ++ later /\
    ~ In "c10-1.png" (["c10-0.png"] ++ later).
Proof.
  intros I P first.
  assert (Hpre : forall n, In n ["c10-0.png"] ->
                   cv2_imread (os_path_join Example.dataset n) = None).
  { intros n [<-|[]]. reflexivity. }
  assert (Hpost : forall n, In n ["c10-9.png"] ->
                    cv2_imread (os_path_join Example.dataset n) = None).
  { intros n [<-|[]]. reflexivity. }
  destruct (first_decoded_frame_is_kept (P := P) (I := I)
              Example.dataset Example.radii Example.threshold Example.min_area
              ["c10-0.png"] ["c10-9.png"] "c10-1.png" first [] Hpre eq_refl)
    as (Hturn & Hsole & Hnever).
  split; [exact Hturn|split; [exact (Hsole Hpost)|]].
  refine (Hnever {| current_image := Some first;
                    unwanted_images := ["c10-0.png"; "c10-9.png"] |} eq_refl _).
  intros [Habs|[]]. discriminate Habs.
Defined.

(** Cameras [c10] and [c20] with two frames each, in both orders. *)
Lemma cameras_are_independent_witness :
  let I := Example.toy_imaging Example.disk in
  let P := Example.windows_path in
  identify_similar_photos Example.dataset Example.radii Example.threshold
    Example.min_area
    [("c10", ["c10-1.png"; "c10-2.png"]); ("c20", ["c20-1.png"; "c20-2.png"])] =
    Ok ["c10-2.png"; "c20-2.png"] /\
  identify_similar_photos Example.dataset Example.radii Example.threshold
    Example.min_area
    [("c20", ["c20-1.png"; "c20-2.png"]); ("c10", ["c10-1.png"; "c10-2.png"])] =
    Ok ["c20-2.png"; "c10-2.png"].
Proof.
  intros I P.
  refine (proj1 (proj2 (proj2 (cameras_are_independent (P := P) (I := I)
            Example.dataset Example.radii Example.threshold Example.min_area)))
            "c10" "c20" "c10-1.png" "c10-2.png" "c20-1.png" "c20-2.png"
            (Example.frame 480 640 0) (Example.frame 480 640 100)
            (Example.frame 480 640 5000) (Example.frame 480 640 5000)
            (inject_Z 100) (inject_Z 0)
            _ eq_refl eq_refl eq_refl eq_refl eq_refl eq_refl _ _).
  - discriminate.
  - reflexivity.
  - reflexivity.
Defined.

(** The camera [c10]: after its three turns the representative is the
    third frame, resized from 1080 by 1920 to the 480 by 640 of the first. *)
Lemma representative_keeps_first_size_witness :
  let I := Example.toy_imaging Example.disk in
  let P := Example.windows_path in
  let first := Example.frame 480 640 0 in
  let third := Example.frame 1080 1920 2000 in
  (visit Example.dataset Example.radii Example.threshold Example.min_area
     {| current_image := Some first; unwanted_images := [] |} "c10-3.png" =
     Ok {| current_image := Some (cv2_resize third (640%nat, 480%nat));
           unwanted_images := [] |} /\
   height_width (cv2_resize third (640%nat, 480%nat)) = (480%nat, 640%nat)) /\
  exists st' : loop_state,
    camera_loop Example.dataset Example.radii Example.threshold Example.min_area
      ["c10-1.png"; "c10-2.png"; "c10-3.png"]
      {| current_image := None; unwanted_images := [] |} = Ok st' /\
    (current_image st' = None \/
     exists current,
       current_image st' = Some current /\
       height_width current = (480%nat, 640%nat)).
Proof.
  intros I P first third.
  destruct (representative_keeps_first_size (P := P) (I := I)
              Example.dataset Example.radii Example.threshold Example.min_area
              (toy_resize_shape _) (toy_preprocess_shape _) (toy_compare_defined _))
    as (Hstep & Hwalk).
  split.
  - refine (Hstep {| current_image := Some first; unwanted_images := [] |}
              "c10-3.png" third first (inject_Z 2000) eq_refl eq_refl _ eq_refl _).
    + discriminate.
    + intros Hlt. discriminate Hlt.
  - exact (Hwalk ["c10-1.png"; "c10-2.png"; "c10-3.png"] 3%nat []).
Defined.

(** * Further properties of the loader *)

Lemma mem_In (x : string) (l : list string) : mem x l = true <-> In x l.
Proof.
  unfold mem. rewrite existsb_exists. split.
  - intros (y & Hy & E). apply String.eqb_eq in E. now subst.
  - intros H. exists x. split; [assumption|apply String.eqb_refl].
Qed.

Lemma mem_not_In (x : string) (l : list string) : mem x l = false <-> ~ In x l.
Proof.
  rewrite <- mem_In. destruct (mem x l); split; congruence.
Qed.

Lemma dict_contains_keys {V : Type} (k : string) (d : dict V) :
  dict_contains k d = mem k (dict_keys d).
Proof.
  unfold dict_contains. induction d as [|[k' v] d IH]; simpl; [reflexivity|].
  rewrite (String.eqb_sym k k'). destruct (k' =? k); [reflexivity|exact IH].
Qed.

Lemma dict_set_absent {V : Type} (k : string) (v : V) (d : dict V) :
  dict_contains k d = false -> dict_set k v d = d ++ [(k, v)].
Proof.
  unfold dict_contains. induction d as [|[k' v'] d IH]; simpl; [reflexivity|].
  destruct (k' =? k); [discriminate|]. intros H. now rewrite IH.
Qed.

Lemma dict_keys_append {A : Type} (k : string) (x : A) (d : dict (list A)) :
  dict_keys (dict_append k x d) = dict_keys d.
Proof.
  induction d as [|[k' v'] d IH]; simpl; [reflexivity|].
  destruct (k' =? k); simpl; [reflexivity|now rewrite IH].
Qed.

Lemma catalog_names_append (k : string) (x : string) (d : dict (list string)) :
  dict_contains k d = true ->
  List.length (catalog_names (dict_append k x d)) = S (List.length (catalog_names d)).
Proof.
  unfold dict_contains, catalog_names.
  induction d as [|[k' v'] d IH]; simpl; [discriminate|].
  destruct (k' =? k); simpl.
  - intros _. rewrite !length_app. simpl. lia.
  - intros H. rewrite !length_app, (IH H). lia.
Qed.

Lemma populate_step_keys (d : dict (list string)) (file_name : string) :
  dict_keys (populate_step d file_name) = add_key (dict_keys d) (camera_of file_name).
Proof.
  unfold populate_step, add_key. rewrite <- dict_contains_keys.
  destruct (dict_contains (camera_of file_name) d) eqn:E; simpl.
  - apply dict_keys_append.
  - rewrite (dict_set_absent _ _ _ E). unfold dict_keys. now rewrite map_app.
Qed.

Lemma populate_fold_keys (listing : list string) (d : dict (list string)) :
  dict_keys (fold_left populate_step listing d) =
    fold_left add_key (map camera_of listing) (dict_keys d).
Proof.
  revert d; induction listing as [|f listing IH]; intros d; simpl; [reflexivity|].
  now rewrite IH, populate_step_keys.
Qed.

Lemma add_keys_NoDup (l seen : list string) :
  NoDup seen -> NoDup (fold_left add_key l seen).
Proof.
  revert seen; induction l as [|k l IH]; intros seen Hnd; simpl; [assumption|].
  apply IH. unfold add_key. destruct (mem k seen) eqn:E; [assumption|].
  apply mem_not_In in E. apply NoDup_app; [assumption|repeat constructor; auto|].
  intros x Hx [<-|[]]. contradiction.
Qed.

Lemma add_keys_In (l seen : list string) (k : string) :
  In k (fold_left add_key l seen) <-> In k seen \/ In k l.
Proof.
  revert seen; induction l as [|x l IH]; intros seen; simpl.
  - tauto.
  - rewrite IH. unfold add_key. destruct (mem x seen) eqn:E.
    + apply mem_In in E. split; [tauto|].
      intros [H|[<-|H]]; auto.
    + rewrite in_app_iff. simpl. tauto.
Qed.

Lemma populate_fold_count (listing : list string) (d : dict (list string)) :
  (List.length (catalog_names (fold_left populate_step listing d)) +
   List.length (dict_keys (fold_left populate_step listing d)) =
   List.length (catalog_names d) + List.length (dict_keys d) + List.length listing)%nat.
Proof.
  revert d; induction listing as [|f listing IH]; intros d; simpl; [lia|].
  rewrite IH. unfold populate_step.
  destruct (dict_contains (camera_of f) d) eqn:E; simpl.
  - rewrite (catalog_names_append _ _ _ E), dict_keys_append. lia.
  - rewrite (dict_set_absent _ _ _ E). unfold catalog_names, dict_keys.
    rewrite !map_app, concat_app, !length_app. simpl. lia.
Qed.

(** X1: the cameras of the dictionary are the 3-character prefixes of the
    listed names, each once, in the order in which they first occur. *)
Theorem populate_keys_in_order_of_first_occurrence (listing : list string) :
  dict_keys (populate listing) = first_occurrences (map camera_of listing) /\
  NoDup (dict_keys (populate listing)) /\
  (forall camera, In camera (dict_keys (populate listing)) <->
                  exists file_name, In file_name listing /\
                                    camera_of file_name = camera).
Proof.
  unfold populate, first_occurrences.
  rewrite (populate_fold_keys listing []). simpl. split; [reflexivity|split].
  - apply add_keys_NoDup. constructor.
  - intros camera. rewrite add_keys_In, in_map_iff. simpl.
    split.
    + intros [[]|(f & E & Hf)]. exists f. auto.
    + intros (f & Hf & E). right. exists f. auto.
Qed.

(** X2: the loader leaves out one name for every camera: the names in the
    dictionary and its cameras together are as many as the listed names. *)
Theorem populate_drops_one_name_per_camera (listing : list string) :
  (List.length (catalog_names (populate listing)) +
   List.length (dict_keys (populate listing)) = List.length listing)%nat.
Proof.
  unfold populate. rewrite (populate_fold_count listing []). reflexivity.
Qed.

Lemma populate_get_In (listing : list string)
  (camera : string) (names : list string) (name : string) :
  dict_get camera (populate listing) = Some names ->
  In name names ->
  In name listing /\ camera_of name = camera.
Proof.
  unfold populate. rewrite populate_fold_get. simpl.
  destruct (filter (fun f => camera_of f =? camera) listing) as [|first later] eqn:E;
    [discriminate|].
  intros [= <-] Hin.
  assert (Hf : In name (filter (fun f => camera_of f =? camera) listing))
    by (rewrite E; now right).
  apply filter_In in Hf as [Hl Hc]. apply String.eqb_eq in Hc. auto.
Qed.

(** X3: every name in a camera's list is a listed name with the camera as its
    3-character prefix. *)
Theorem populate_names_come_from_listing (listing : list string)
  (camera : string) (names : list string) (name : string) :
  dict_get camera (populate listing) = Some names ->
  In name names ->
  In name listing /\ camera_of name = camera.
Proof.
  intros Hget Hin. exact (populate_get_In listing camera names name Hget Hin).
Qed.

Lemma populate_names_come_from_listing_witness :
  In "c10-3.png" ["c10-1.png"; "c10-2.png"; "c20-1.png"; "c10-3.png"] /\
  camera_of "c10-3.png" = "c10".
Proof.
  apply (populate_names_come_from_listing
           ["c10-1.png"; "c10-2.png"; "c20-1.png"; "c10-3.png"]
           "c10" ["c10-2.png"; "c10-3.png"] "c10-3.png").
  - reflexivity.
  - simpl. auto.
Defined.

Lemma populate_first_absent (before after : list string) (first : string) :
  (forall f, In f before -> camera_of f <> camera_of first) ->
  ~ In first after ->
  forall camera names,
    dict_get camera (populate (before ++ first :: after)) = Some names ->
    ~ In first names.
Proof.
  intros Hbefore Hafter camera names.
  unfold populate. rewrite populate_fold_get. simpl.
  rewrite filter_app. simpl.
  destruct (camera_of first =? camera) eqn:E.
  - apply String.eqb_eq in E. subst camera.
    assert (Hnone : filter (fun f => camera_of f =? camera_of first) before = []).
    { clear - Hbefore. induction before as [|b before IH]; simpl; [reflexivity|].
      destruct (camera_of b =? camera_of first) eqn:Eb.
      - apply String.eqb_eq in Eb. exfalso. apply (Hbefore b); [now left|assumption].
      - apply IH. intros f Hf. apply Hbefore. now right. }
    rewrite Hnone. simpl. intros [= <-] Hin.
    apply filter_In in Hin as [Hin _]. contradiction.
  - destruct (filter _ before ++ filter _ after) as [|x later] eqn:El; [discriminate|].
    intros [= <-] Hin.
    assert (Hf : In first (filter (fun f => camera_of f =? camera) before ++
                           filter (fun f => camera_of f =? camera) after))
      by (rewrite El; now right).
    apply in_app_or in Hf as [Hf|Hf]; apply filter_In in Hf as [_ Hc];
      rewrite Hc in E; discriminate.
Qed.

(** X4: the first listed name of a camera, when it is listed once, is in no
    list of the dictionary. *)
Theorem populate_leaves_out_first_of_camera (before after : list string)
  (first : string) :
  (forall f, In f before -> camera_of f <> camera_of first) ->
  ~ In first after ->
  forall camera names,
    dict_get camera (populate (before ++ first :: after)) = Some names ->
    ~ In first names.
Proof.
  intros Hbefore Hafter camera names Hget.
  exact (populate_first_absent before after first Hbefore Hafter camera names Hget).
Qed.

Lemma populate_keys_NoDup (listing : list string) :
  NoDup (dict_keys (populate listing)).
Proof.
  unfold populate. rewrite (populate_fold_keys listing []).
  apply add_keys_NoDup. constructor.
Qed.

Lemma populate_leaves_out_first_of_camera_witness :
  ~ In "c20-1.png" ["c20-2.png"].
Proof.
  apply (populate_leaves_out_first_of_camera
           ["c10-1.png"; "c10-2.png"] ["c20-2.png"; "c10-3.png"] "c20-1.png")
    with (camera := "c20").
  - intros f [<-|[<-|[]]]; discriminate.
  - intros [H|[H|[]]]; discriminate.
  - reflexivity.
Defined.

(** X5: [load_input] calls [os.remove] once, on the [.DS_Store] path, whatever
    comes of it, and no other file is changed, also when it raises. *)
Theorem load_input_touches_marker_only (folder : string) (w : world) :
  let marker := (folder ++ "\.DS_Store")%string in
  let w' := snd (load_input folder w) in
  os_remove_log w' = os_remove_log w ++ [(marker, os_remove_result marker (files w))] /\
  files w' = match os_remove_result marker (files w) with
             | None => fs_delete marker (files w)
             | Some _ => files w
             end.
Proof.
  unfold load_input, bind, try_except, os_remove, os_listdir, ret,
    is_FileNotFoundError.
  destruct (os_remove_result (folder ++ "\.DS_Store") (files w)) as [e|]; simpl.
  - destruct e; simpl; try (split; reflexivity).
    destruct (fs_lookup folder (files w)) as [[|b]|]; simpl; split; reflexivity.
  - destruct (fs_lookup folder (fs_delete (folder ++ "\.DS_Store") (files w)))
      as [[|b]|]; simpl; split; reflexivity.
Qed.

(** X6: a [.DS_Store] that cannot be deleted ends [load_input] with the
    [PermissionError] of [os.remove]: only [FileNotFoundError] is caught. *)
Theorem load_input_undeletable_marker (folder : string) (w : world) (n : node) :
  fs_lookup (folder ++ "\.DS_Store") (files w) = Some n ->
  n <> File true ->
  fst (load_input folder w) = Raise PermissionError.
Proof.
  intros Hm Hn.
  unfold load_input, bind, try_except, os_remove, os_remove_result. rewrite Hm.
  destruct n as [|[|]]; simpl; try reflexivity. now contradiction Hn.
Qed.

Lemma load_input_undeletable_marker_witness :
  fst (load_input "C:\data"
         {| files := [("C:\data", Dir); ("C:\data\.DS_Store", File false);
                      ("C:\data\c10-1.png", File true)];
            os_remove_log := [] |}) = Raise PermissionError.
Proof.
  apply (load_input_undeletable_marker "C:\data" _ (File false)).
  - reflexivity.
  - discriminate.
Defined.

(** X7: without a [.DS_Store], a folder path that names nothing ends
    [load_input] with the [FileNotFoundError] of [os.listdir] and one that
    names a file with [NotADirectoryError]. *)
Theorem load_input_needs_a_folder (folder : string) (w : world) :
  fs_lookup (folder ++ "\.DS_Store") (files w) = None ->
  (fs_lookup folder (files w) = None ->
   fst (load_input folder w) = Raise FileNotFoundError) /\
  (forall b, fs_lookup folder (files w) = Some (File b) ->
   fst (load_input folder w) = Raise NotADirectoryError).
Proof.
  intros Hm.
  unfold load_input, bind, try_except, os_remove, os_remove_result, os_listdir.
  rewrite Hm. simpl. split.
  - intros ->. reflexivity.
  - intros b ->. reflexivity.
Qed.

Lemma load_input_needs_a_folder_witness :
  fst (load_input "C:\data" {| files := []; os_remove_log := [] |}) =
    Raise FileNotFoundError /\
  fst (load_input "C:\data"
         {| files := [("C:\data", File true)]; os_remove_log := [] |}) =
    Raise NotADirectoryError.
Proof.
  split.
  - exact (proj1 (load_input_needs_a_folder "C:\data"
                    {| files := []; os_remove_log := [] |} eq_refl) eq_refl).
  - exact (proj2 (load_input_needs_a_folder "C:\data"
                    {| files := [("C:\data", File true)]; os_remove_log := [] |}
                    eq_refl) true eq_refl).
Defined.

(** * Further properties of the remover *)

Lemma remove_one_files {H : OsPath} (folder : string) (n : Z) (name : string)
  (w : world) :
  let path := os_path_join folder name in
  files (snd (remove_one folder n name w)) =
    match os_remove_result path (files w) with
    | None => fs_delete path (files w)
    | Some _ => files w
    end.
Proof.
  unfold remove_one, try_except, bind, os_remove, ret, is_Exception. simpl.
  destruct (os_remove_result (os_path_join folder name) (files w)); reflexivity.
Qed.

Lemma remove_loop_cons {H : OsPath} (folder name : string) (unwanted : list string)
  (n : Z) (w : world) :
  for_io (name :: unwanted) (remove_one folder) n w =
    for_io unwanted (remove_one folder)
      (match os_remove_result (os_path_join folder name) (files w) with
       | None => n + 1
       | Some _ => n - 1
       end)%Z
      (snd (remove_one folder n name w)).
Proof.
  change (for_io (name :: unwanted) (remove_one folder) n w)
    with (bind (remove_one folder n name)
               (fun n' => for_io unwanted (remove_one folder) n') w).
  unfold bind.
  pose proof (remove_one_spec folder n name w) as [Hres _].
  destruct (remove_one folder n name w) as [[n'|e] w'];
    simpl in Hres; [|discriminate].
  injection Hres as ->. reflexivity.
Qed.

Lemma os_remove_result_delete_same (path : string) (fs : filesystem) :
  os_remove_result path (fs_delete path fs) = Some FileNotFoundError.
Proof. unfold os_remove_result. now rewrite fs_lookup_delete_same. Qed.

Lemma os_remove_result_delete (path q : string) (fs : filesystem) :
  os_remove_result q fs <> None ->
  os_remove_result q (fs_delete path fs) <> None.
Proof.
  destruct (String.eqb_spec path q) as [->|Hne].
  - intros _. now rewrite os_remove_result_delete_same.
  - unfold os_remove_result. now rewrite fs_lookup_delete_other.
Qed.

(** A path that cannot be deleted before the loop cannot be deleted after. *)
Lemma remove_loop_keeps_failing {H : OsPath} (folder : string)
  (unwanted : list string) (q : string) :
  forall (n : Z) (w : world),
  os_remove_result q (files w) <> None ->
  os_remove_result q (files (snd (for_io unwanted (remove_one folder) n w))) <> None.
Proof.
  induction unwanted as [|name unwanted IH]; intros n w Hq; [exact Hq|].
  rewrite remove_loop_cons. apply IH. rewrite remove_one_files.
  destruct (os_remove_result (os_path_join folder name) (files w));
    [assumption|now apply os_remove_result_delete].
Qed.

Lemma remove_loop_exhausts {H : OsPath} (folder : string) (unwanted : list string) :
  forall (n : Z) (w : world) (name : string),
  In name unwanted ->
  os_remove_result (os_path_join folder name)
    (files (snd (for_io unwanted (remove_one folder) n w))) <> None.
Proof.
  induction unwanted as [|x unwanted IH]; intros n w name Hin; [contradiction|].
  rewrite remove_loop_cons. destruct Hin as [->|Hin]; [|now apply IH].
  apply remove_loop_keeps_failing. rewrite remove_one_files.
  destruct (os_remove_result (os_path_join folder name) (files w)) eqn:E.
  - rewrite E. discriminate.
  - rewrite os_remove_result_delete_same. discriminate.
Qed.

(** Paths that the loop does not hand to [os.remove] keep their file. *)
Lemma remove_loop_frame {H : OsPath} (folder : string) (unwanted : list string)
  (q : string) :
  forall (n : Z) (w : world),
  ~ In q (map (os_path_join folder) unwanted) ->
  fs_lookup q (files (snd (for_io unwanted (remove_one folder) n w))) =
    fs_lookup q (files w).
Proof.
  induction unwanted as [|name unwanted IH]; intros n w Hq; [reflexivity|].
  rewrite remove_loop_cons, IH by (intros Hin; apply Hq; now right).
  rewrite remove_one_files.
  destruct (os_remove_result (os_path_join folder name) (files w)); [reflexivity|].
  apply fs_lookup_delete_other. intros E. apply Hq. now left.
Qed.

(** When every call fails, the loop counts down and changes no file. *)
Lemma remove_loop_all_fail {H : OsPath} (folder : string) (unwanted : list string) :
  forall (n : Z) (w : world),
  (forall name, In name unwanted ->
                os_remove_result (os_path_join folder name) (files w) <> None) ->
  fst (for_io unwanted (remove_one folder) n w) =
    Ok (n - Z.of_nat (List.length unwanted))%Z /\
  files (snd (for_io unwanted (remove_one folder) n w)) = files w.
Proof.
  induction unwanted as [|name unwanted IH]; intros n w Hall.
  - simpl. split; [f_equal; lia|reflexivity].
  - rewrite remove_loop_cons.
    pose proof (remove_one_files folder n name w) as Hf. simpl in Hf.
    destruct (os_remove_result (os_path_join folder name) (files w)) eqn:E.
    + destruct (IH (n - 1)%Z (snd (remove_one folder n name w))) as [Hr Hfs].
      { intros x Hx. rewrite Hf. apply Hall. now right. }
      rewrite Hr, Hfs, Hf. split; [f_equal|reflexivity].
      change (List.length (name :: unwanted)) with (S (List.length unwanted)). lia.
    + exfalso. apply (Hall name); [now left|assumption].
Qed.

(** When every listed file is there, can be deleted and is listed once, the
    loop counts up and every listed file is gone. *)
Lemma remove_loop_all_succeed {H : OsPath} (folder : string) (unwanted : list string) :
  forall (n : Z) (w : world),
  NoDup (map (os_path_join folder) unwanted) ->
  (forall name, In name unwanted ->
                fs_lookup (os_path_join folder name) (files w) = Some (File true)) ->
  fst (for_io unwanted (remove_one folder) n w) =
    Ok (n + Z.of_nat (List.length unwanted))%Z /\
  (forall name, In name unwanted ->
     fs_lookup (os_path_join folder name)
       (files (snd (for_io unwanted (remove_one folder) n w))) = None).
Proof.
  induction unwanted as [|name unwanted IH]; intros n w Hnd Hall.
  - simpl. split; [f_equal; lia|contradiction].
  - rewrite remove_loop_cons.
    pose proof (remove_one_files folder n name w) as Hf. simpl in Hf.
    simpl in Hnd. inversion Hnd as [|? ? Hnotin Hnd']; subst.
    assert (E : os_remove_result (os_path_join folder name) (files w) = None).
    { unfold os_remove_result. rewrite (Hall name); [reflexivity|now left]. }
    rewrite E in *.
    destruct (IH (n + 1)%Z (snd (remove_one folder n name w)) Hnd') as [Hr Hgone].
    { intros x Hx. rewrite Hf, fs_lookup_delete_other.
      - apply Hall. now right.
      - intros Heq. apply Hnotin. rewrite Heq. now apply in_map. }
    split.
    + rewrite Hr. f_equal.
      change (List.length (name :: unwanted)) with (S (List.length unwanted)). lia.
    + intros x [<-|Hx]; [|now apply Hgone].
      rewrite remove_loop_frame by assumption.
      rewrite Hf. apply fs_lookup_delete_same.
Qed.

Lemma succeeded_plus_failed (calls : list (string * option exn)) :
  (succeeded calls + failed calls = Z.of_nat (List.length calls))%Z.
Proof.
  induction calls as [|c calls IH]; [reflexivity|].
  change (c :: calls) with ([c] ++ calls).
  rewrite succeeded_app, failed_app, length_app, Nat2Z.inj_add.
  assert (Hc : (succeeded [c] + failed [c] = Z.of_nat (List.length [c]))%Z)
    by (destruct c as [p [e|]]; reflexivity).
  lia.
Qed.

(** X16: the number reported is the length of the list minus twice the number of
    failed deletions, so it lies between minus the length and the length. *)
Theorem reported_count_and_failures {H : OsPath} (folder : string)
  (unwanted : list string) (w : world) :
  exists (calls : list (string * option exn)) (n : Z),
    os_remove_log (snd (remove_similar_photos folder unwanted w)) =
      os_remove_log w ++ calls /\
    fst (remove_similar_photos folder unwanted w) = Ok n /\
    n = (Z.of_nat (List.length unwanted) - 2 * failed calls)%Z /\
    (- Z.of_nat (List.length unwanted) <= n <= Z.of_nat (List.length unwanted))%Z.
Proof.
  destruct (remove_loop_spec folder unwanted 0%Z w) as (calls & Hl & Hm & Hr).
  exists calls. eexists. split; [exact Hl|split; [exact Hr|]].
  pose proof (succeeded_plus_failed calls) as Hsum.
  assert (Hlen : List.length calls = List.length unwanted).
  { rewrite <- (length_map fst calls), Hm. apply length_map. }
  rewrite Hlen in Hsum.
  assert (0 <= succeeded calls)%Z by (unfold succeeded; lia).
  assert (0 <= failed calls)%Z by (unfold failed; lia).
  lia.
Qed.

(** X17: when every listed file is in the folder, can be deleted and is listed
    once, the number reported is the length of the list and every listed
    file is gone afterwards. *)
Theorem remove_similar_photos_deletes_all {H : OsPath} (folder : string)
  (unwanted : list string) (w : world) :
  NoDup (map (os_path_join folder) unwanted) ->
  (forall name, In name unwanted ->
                fs_lookup (os_path_join folder name) (files w) = Some (File true)) ->
  fst (remove_similar_photos folder unwanted w) =
    Ok (Z.of_nat (List.length unwanted)) /\
  (forall name, In name unwanted ->
     fs_lookup (os_path_join folder name)
       (files (snd (remove_similar_photos folder unwanted w))) = None).
Proof.
  intros Hnd Hall.
  exact (remove_loop_all_succeed folder unwanted 0%Z w Hnd Hall).
Qed.

Lemma remove_similar_photos_deletes_all_witness :
  let r := remove_similar_photos (H := Example.windows_path) Example.dataset
             ["c10-2.png"; "c20-1.png"] Example.folder_world in
  fst r = Ok 2%Z /\
  (forall name, In name ["c10-2.png"; "c20-1.png"] ->
     fs_lookup (Example.windows_path Example.dataset name) (files (snd r)) = None).
Proof.
  apply (remove_similar_photos_deletes_all (H := Example.windows_path)
           Example.dataset ["c10-2.png"; "c20-1.png"] Example.folder_world).
  - repeat constructor; simpl; intuition discriminate.
  - intros name [<-|[<-|[]]]; reflexivity.
Defined.

(** X18: a file whose path is not the path of a listed name is left as it is. *)
Theorem remove_similar_photos_leaves_other_files {H : OsPath} (folder : string)
  (unwanted : list string) (w : world) (path : string) :
  ~ In path (map (os_path_join folder) unwanted) ->
  fs_lookup path (files (snd (remove_similar_photos folder unwanted w))) =
    fs_lookup path (files w).
Proof.
  intros Hq. exact (remove_loop_frame folder unwanted path 0%Z w Hq).
Qed.

Lemma remove_similar_photos_leaves_other_files_witness :
  fs_lookup "C:\dataset\c10-1.png"
    (files (snd (remove_similar_photos (H := Example.windows_path) Example.dataset
                   ["c10-2.png"; "c30-1.png"] Example.folder_world))) =
  Some (File true).
Proof.
  apply (remove_similar_photos_leaves_other_files (H := Example.windows_path)
           Example.dataset ["c10-2.png"; "c30-1.png"] Example.folder_world
           "C:\dataset\c10-1.png").
  simpl. intuition discriminate.
Defined.

(** X19: after a run no listed file can be deleted any more, so a second run on
    the same list deletes nothing and reports minus the length of the list. *)
Theorem remove_similar_photos_twice {H : OsPath} (folder : string)
  (unwanted : list string) (w : world) :
  let w' := snd (remove_similar_photos folder unwanted w) in
  (forall name, In name unwanted ->
     os_remove_result (os_path_join folder name) (files w') <> None) /\
  fst (remove_similar_photos folder unwanted w') =
    Ok (- Z.of_nat (List.length unwanted))%Z /\
  files (snd (remove_similar_photos folder unwanted w')) = files w'.
Proof.
  intros w'.
  assert (Hex : forall name, In name unwanted ->
            os_remove_result (os_path_join folder name) (files w') <> None).
  { intros name Hin. apply remove_loop_exhausts. exact Hin. }
  split; [exact Hex|].
  exact (remove_loop_all_fail folder unwanted 0%Z w' Hex).
Qed.

(** * Further properties of the detector *)

Lemma subsequence_app {A : Type} (s l s' l' : list A) :
  subsequence s l -> subsequence s' l' -> subsequence (s ++ s') (l ++ l').
Proof.
  intros H H'. induction H; simpl; [assumption| |]; now constructor.
Qed.

Lemma subsequence_refl {A : Type} (l : list A) : subsequence l l.
Proof. induction l; now constructor. Qed.

Lemma subsequence_nil_l {A : Type} (l : list A) : subsequence [] l.
Proof. induction l; now constructor. Qed.

Lemma subsequence_incl {A : Type} (s l : list A) :
  subsequence s l -> incl s l.
Proof.
  induction 1 as [|x s l _ IH|x s l _ IH]; intros y Hy.
  - contradiction.
  - right. auto.
  - destruct Hy as [<-|Hy]; [now left|right; auto].
Qed.

Lemma subsequence_NoDup {A : Type} (s l : list A) :
  subsequence s l -> NoDup l -> NoDup s.
Proof.
  induction 1 as [|x s l Hs IH|x s l Hs IH]; intros Hnd.
  - constructor.
  - inversion Hnd; auto.
  - inversion Hnd as [|? ? Hnotin Hnd']; subst. constructor; [|auto].
    intros Hin. apply Hnotin. exact (subsequence_incl _ _ Hs _ Hin).
Qed.

Lemma subsequence_length {A : Type} (s l : list A) :
  subsequence s l -> (List.length s <= List.length l)%nat.
Proof. induction 1; simpl; lia. Qed.

Lemma survivors_skip (names unwanted : list string) (x : string) :
  ~ In x names -> survivors names (x :: unwanted) = survivors names unwanted.
Proof.
  intros Hx. unfold survivors. apply filter_ext_in. intros n Hn. simpl.
  destruct (String.eqb_spec n x) as [->|_]; [contradiction|reflexivity].
Qed.

Lemma survivors_cons (name : string) (names unwanted : list string) :
  survivors (name :: names) unwanted =
    if mem name unwanted then survivors names unwanted
    else name :: survivors names unwanted.
Proof. unfold survivors. simpl. now destruct (mem name unwanted). Qed.

Lemma survivors_same (names unwanted unwanted' : list string) :
  (forall n, In n names -> (In n unwanted <-> In n unwanted')) ->
  survivors names unwanted = survivors names unwanted'.
Proof.
  intros Hsame. unfold survivors. apply filter_ext_in. intros n Hn. f_equal.
  destruct (mem n unwanted') eqn:E.
  - apply mem_In. apply Hsame; [assumption|]. now apply mem_In.
  - apply mem_not_In. intros Hin. apply mem_not_In in E. apply E.
    now apply Hsame.
Qed.

Lemma dict_get_key {V : Type} (d : dict V) (k : string) :
  In k (dict_keys d) -> exists v, dict_get k d = Some v.
Proof.
  induction d as [|[k' v'] d IH]; simpl; [contradiction|].
  intros Hin. destruct (k' =? k) eqn:E; [eexists; reflexivity|].
  destruct Hin as [->|Hin]; [now rewrite String.eqb_refl in E|auto].
Qed.

Section DetectorFurther.
Context {P : OsPath} {I : Imaging}.
Variable folder : string.
Variable radii : list Z.
Variable threshold : Q.
Variable min_area : Q.

Local Abbreviation step := (visit folder radii threshold min_area).
Local Abbreviation walk := (camera_loop folder radii threshold min_area).
Local Abbreviation camera := (identify_camera folder radii threshold min_area).
Local Abbreviation detect := (identify_similar_photos folder radii threshold min_area).
Local Abbreviation gray img := (preprocess_image_change_detection img radii).
Local Abbreviation EMPTY unwanted :=
  {| current_image := None; unwanted_images := unwanted |}.
Local Abbreviation walk_cons' := (walk_cons folder radii threshold min_area).

(** What a turn that returns has done: appended the name and kept the
    representative, or appended nothing, the name being decoded. *)
Lemma step_cases (st st' : loop_state) (name : string) :
  step st name = Ok st' ->
  (unwanted_images st' = unwanted_images st ++ [name] /\
   current_image st' = current_image st) \/
  (unwanted_images st' = unwanted_images st /\
   exists img, cv2_imread (os_path_join folder name) = Some img).
Proof.
  unfold visit.
  destruct (cv2_imread (os_path_join folder name)) as [img|].
  - destruct (current_image st) as [cur|] eqn:Hc.
    + destruct (compare_frames_change_detection _ _ _) as [score|]; [|discriminate].
      destruct (Qltb score threshold); intros [= <-]; simpl; eauto.
    + intros [= <-]; simpl; eauto.
  - intros [= <-]; simpl; auto.
Qed.

Lemma walk_subsequence (names : list string) :
  forall st st' : loop_state,
  walk names st = Ok st' ->
  exists added, unwanted_images st' = unwanted_images st ++ added /\
                subsequence added names.
Proof.
  induction names as [|name names IH]; intros st st'.
  - rewrite walk_nil. intros [= <-]. exists []. rewrite app_nil_r.
    split; [reflexivity|constructor].
  - rewrite walk_cons'. destruct (step st name) as [st1|] eqn:E; [|discriminate].
    intros Hw. destruct (IH _ _ Hw) as (added & Hu & Hs).
    destruct (step_cases _ _ _ E) as [[H1 _]|[H1 _]]; rewrite H1 in Hu.
    + exists (name :: added). rewrite <- app_assoc in Hu.
      split; [exact Hu|now constructor].
    + exists added. split; [exact Hu|now constructor].
Qed.

Lemma camera_subsequence (names removed : list string) :
  camera names [] = Ok removed -> subsequence removed names.
Proof.
  unfold identify_camera.
  destruct (walk names (EMPTY [])) as [st'|] eqn:E; [|discriminate].
  intros [= <-]. destruct (walk_subsequence _ _ _ E) as (added & Hu & Hs).
  simpl in Hu. now rewrite Hu.
Qed.

Lemma parts_subsequence (d : dict (list string)) (parts : list (list string)) :
  Forall2 (fun entry part => camera (snd entry) [] = Ok part) d parts ->
  subsequence (List.concat parts) (catalog_names d).
Proof.
  unfold catalog_names. induction 1 as [|entry part d parts Hc _ IH]; simpl.
  - constructor.
  - apply subsequence_app; [now apply camera_subsequence|exact IH].
Qed.

Lemma detect_parts (d : dict (list string)) (removed : list string) :
  NoDup (dict_keys d) ->
  detect d = Ok removed ->
  exists parts,
    Forall2 (fun entry part => camera (snd entry) [] = Ok part) d parts /\
    removed = List.concat parts.
Proof.
  intros Hnd Hd.
  rewrite (detect_entries folder radii threshold min_area d Hnd) in Hd.
  apply (collect_cameras folder radii threshold min_area) in Hd
    as (parts & HF & ->).
  exists parts. split; [assumption|reflexivity].
Qed.

(** X8: the unwanted images are names of the catalog, in the catalog's order:
    what the detector returns is the catalog's names with some left out.
    So when no name is in the catalog twice, none is unwanted twice. *)
Theorem unwanted_images_come_from_catalog (d : dict (list string))
  (removed : list string) :
  NoDup (dict_keys d) ->
  detect d = Ok removed ->
  subsequence removed (catalog_names d) /\
  (NoDup (catalog_names d) -> NoDup removed).
Proof.
  intros Hnd Hd. destruct (detect_parts d removed Hnd Hd) as (parts & HF & ->).
  pose proof (parts_subsequence d parts HF) as Hs.
  split; [exact Hs|]. now apply subsequence_NoDup.
Qed.

Lemma walk_appends_undecodable (names : list string) (name : string) :
  forall st st' : loop_state,
  walk names st = Ok st' ->
  In name names ->
  cv2_imread (os_path_join folder name) = None ->
  In name (unwanted_images st').
Proof.
  induction names as [|x names IH]; intros st st' Hw Hin Hnone; [contradiction|].
  rewrite walk_cons' in Hw. destruct (step st x) as [st1|] eqn:E; [|discriminate].
  destruct Hin as [->|Hin]; [|now apply (IH st1)].
  destruct (walk_subsequence _ _ _ Hw) as (added & Hu & _).
  rewrite Hu. apply in_or_app. left.
  destruct (step_cases _ _ _ E) as [[H1 _]|[_ (img & Himg)]].
  - rewrite H1. apply in_or_app. right. now left.
  - congruence.
Qed.

(** X9: every name of the catalog that [cv2.imread] does not decode is among
    the unwanted images. *)
Theorem undecodable_names_are_all_unwanted (d : dict (list string))
  (removed : list string) (cam : string) (names : list string) (name : string) :
  NoDup (dict_keys d) ->
  detect d = Ok removed ->
  In (cam, names) d ->
  In name names ->
  cv2_imread (os_path_join folder name) = None ->
  In name removed.
Proof.
  intros Hnd Hd Hentry Hin Hnone.
  destruct (detect_parts d removed Hnd Hd) as (parts & HF & ->).
  clear Hnd Hd. induction HF as [|entry part d parts Hc HF IH]; [contradiction|].
  simpl. apply in_or_app. destruct Hentry as [->|Hentry]; [left|right; auto].
  simpl in Hc. unfold identify_camera in Hc.
  destruct (walk names (EMPTY [])) as [st'|] eqn:E; [|discriminate].
  injection Hc as <-. exact (walk_appends_undecodable _ _ _ _ E Hin Hnone).
Qed.

Lemma walk_length (names : list string) (st st' : loop_state) :
  walk names st = Ok st' ->
  (List.length (unwanted_images st') <=
   List.length (unwanted_images st) + List.length names)%nat.
Proof.
  intros Hw. destruct (walk_subsequence _ _ _ Hw) as (added & Hu & Hs).
  rewrite Hu, length_app. apply subsequence_length in Hs. lia.
Qed.

Lemma walk_keeps_a_frame (names : list string) :
  forall (unwanted : list string) (st' : loop_state),
  first_decoded folder names <> None ->
  walk names (EMPTY unwanted) = Ok st' ->
  (List.length (unwanted_images st') <
   List.length unwanted + List.length names)%nat.
Proof.
  induction names as [|name names IH]; intros unwanted st' Hsome Hw;
    [now contradiction Hsome|].
  rewrite walk_cons' in Hw. simpl in Hsome.
  destruct (cv2_imread (os_path_join folder name)) as [img|] eqn:E.
  - rewrite (step_first_decoded folder radii threshold min_area _ _ _ E) in Hw.
    apply walk_length in Hw. simpl in *. lia.
  - rewrite (step_decode_failure folder radii threshold min_area _ _ E) in Hw.
    simpl in Hw. apply (IH _ _ Hsome) in Hw.
    rewrite length_app in Hw. simpl in *. lia.
Qed.

(** X10: a camera with a name that decodes never has all its names unwanted. *)
Theorem camera_keeps_a_frame (names removed : list string) :
  first_decoded folder names <> None ->
  camera names [] = Ok removed ->
  (List.length removed < List.length names)%nat.
Proof.
  intros Hsome. unfold identify_camera.
  destruct (walk names (EMPTY [])) as [st'|] eqn:E; [|discriminate].
  intros [= <-]. exact (walk_keeps_a_frame names [] st' Hsome E).
Qed.

(** Later names that each fail to decode or score below the threshold
    against a representative are all appended, and it stays. *)
Lemma walk_all_duplicates (rep : image) (names : list string) :
  forall unwanted : list string,
  (forall name, In name names ->
     match cv2_imread (os_path_join folder name) with
     | None => True
     | Some img =>
         exists score,
           compare_frames_change_detection (gray rep) (gray (reconcile rep img))
             min_area = Ok score /\ (score < threshold)%Q
     end) ->
  walk names {| current_image := Some rep; unwanted_images := unwanted |} =
    Ok {| current_image := Some rep; unwanted_images := unwanted ++ names |}.
Proof.
  induction names as [|name names IH]; intros unwanted Hall.
  - rewrite walk_nil, app_nil_r. reflexivity.
  - rewrite walk_cons'.
    assert (Hstep : step {| current_image := Some rep; unwanted_images := unwanted |}
                      name =
                    Ok {| current_image := Some rep;
                          unwanted_images := unwanted ++ [name] |}).
    { specialize (Hall name (or_introl eq_refl)). unfold visit. simpl.
      destruct (cv2_imread (os_path_join folder name)) as [img|]; [|reflexivity].
      destruct Hall as (score & Hs & Hlt). rewrite Hs.
      apply Qltb_lt in Hlt. now rewrite Hlt. }
    rewrite Hstep, IH by (intros n Hn; apply Hall; now right).
    now rewrite <- app_assoc.
Qed.

(** X11: when every name after a camera's first decodes to an image that scores
    below the threshold against the first, or does not decode, all the
    names after the first are unwanted. *)
Theorem duplicates_of_first_frame_are_all_unwanted (first : string)
  (rest : list string) (img0 : image) :
  cv2_imread (os_path_join folder first) = Some img0 ->
  (forall name, In name rest ->
     match cv2_imread (os_path_join folder name) with
     | None => True
     | Some img =>
         exists score,
           compare_frames_change_detection (gray img0) (gray (reconcile img0 img))
             min_area = Ok score /\ (score < threshold)%Q
     end) ->
  camera (first :: rest) [] = Ok rest.
Proof.
  intros Hfirst Hall. unfold identify_camera.
  rewrite walk_cons', (step_first_decoded folder radii threshold min_area _ _ _ Hfirst).
  rewrite (walk_all_duplicates img0 rest [] Hall). reflexivity.
Qed.

(** A walk does the same from another list of unwanted images. *)
Lemma walk_rebase (names : list string) (c : option image) (u : list string)
  (st' : loop_state) :
  walk names {| current_image := c; unwanted_images := u |} = Ok st' ->
  exists added,
    unwanted_images st' = u ++ added /\
    forall u2,
      walk names {| current_image := c; unwanted_images := u2 |} =
        Ok {| current_image := current_image st'; unwanted_images := u2 ++ added |}.
Proof.
  intros Hw.
  pose proof (walk_frame folder radii threshold min_area u names
                {| current_image := c; unwanted_images := [] |}) as Hu.
  simpl in Hu. rewrite app_nil_r, Hw in Hu.
  destruct (walk names {| current_image := c; unwanted_images := [] |})
    as [s0|] eqn:E0; [|discriminate].
  injection Hu as ->. simpl. exists (unwanted_images s0). split; [reflexivity|].
  intros u2.
  pose proof (walk_frame folder radii threshold min_area u2 names
                {| current_image := c; unwanted_images := [] |}) as Hu2.
  simpl in Hu2. rewrite app_nil_r, E0 in Hu2. exact Hu2.
Qed.

Lemma walk_survivors (names : list string) :
  forall (st st' : loop_state) (added : list string),
  NoDup names ->
  walk names st = Ok st' ->
  unwanted_images st' = unwanted_images st ++ added ->
  walk (survivors names added) st =
    Ok {| current_image := current_image st';
          unwanted_images := unwanted_images st |}.
Proof.
  induction names as [|name names IH]; intros st st' added Hnd Hw Hu.
  - rewrite walk_nil in Hw. injection Hw as <-. now destruct st.
  - inversion Hnd as [|? ? Hnotin Hnd']; subst.
    rewrite walk_cons' in Hw.
    destruct (step st name) as [st1|] eqn:E; [|discriminate].
    destruct (walk_subsequence _ _ _ Hw) as (added1 & Hu1 & Hs1).
    pose proof (subsequence_incl _ _ Hs1) as Hincl.
    pose proof (IH st1 st' added1 Hnd' Hw Hu1) as Hrest.
    destruct (step_cases _ _ _ E) as [[H1 Hc]|[H1 _]].
    + assert (Hadded : added = name :: added1).
      { rewrite Hu1, H1, <- app_assoc in Hu. apply app_inv_head in Hu.
        now symmetry. }
      subst added.
      assert (Hdrop : mem name (name :: added1) = true)
        by (apply mem_In; now left).
      rewrite survivors_cons, Hdrop.
      rewrite (survivors_skip names added1 name Hnotin).
      destruct st1 as [c1 u1]. simpl in *. subst c1.
      destruct (walk_rebase _ _ _ _ Hrest) as (a & Ha & Hre). simpl in Ha.
      assert (a = []) by (apply (app_inv_head u1); now rewrite app_nil_r).
      subst a. specialize (Hre (unwanted_images st)).
      rewrite app_nil_r in Hre. simpl in Hre. destruct st as [c u]. exact Hre.
    + assert (Hadded : added = added1).
      { rewrite Hu1, H1 in Hu. apply app_inv_head in Hu. now symmetry. }
      subst added.
      assert (Hkeep : mem name added1 = false).
      { apply mem_not_In. intros Hin. apply Hnotin, Hincl, Hin. }
      rewrite survivors_cons, Hkeep.
      rewrite walk_cons', E, Hrest, H1. reflexivity.
Qed.

Lemma camera_survivors (names removed : list string) :
  NoDup names ->
  camera names [] = Ok removed ->
  camera (survivors names removed) [] = Ok [].
Proof.
  intros Hnd. unfold identify_camera.
  destruct (walk names (EMPTY [])) as [st'|] eqn:E; [|discriminate].
  intros [= <-].
  rewrite (walk_survivors names (EMPTY []) st' (unwanted_images st') Hnd E eq_refl).
  reflexivity.
Qed.

Lemma parts_survivors (d : dict (list string)) (parts : list (list string)) :
  Forall2 (fun entry part => camera (snd entry) [] = Ok part) d parts ->
  NoDup (catalog_names d) ->
  forall before : list string,
  (forall n, In n before -> ~ In n (catalog_names d)) ->
  Forall2 (fun entry part => camera (snd entry) [] = Ok part)
    (map (fun entry =>
            (fst entry, survivors (snd entry) (before ++ List.concat parts))) d)
    (map (fun _ => []) d).
Proof.
  unfold catalog_names.
  induction 1 as [|entry part d parts Hc HF IH]; intros Hnd before Hbefore; simpl.
  - constructor.
  - simpl in Hnd, Hbefore.
    pose proof (camera_subsequence _ _ Hc) as Hpart.
    pose proof (subsequence_incl _ _ (parts_subsequence d parts HF)) as Hparts.
    unfold catalog_names in Hparts.
    apply NoDup_app_remove_l in Hnd as Hnd2.
    pose proof (NoDup_app_remove_r _ _ Hnd) as Hnd1.
    assert (Hdisj : forall n, In n (snd entry) ->
                      ~ In n (List.concat (map snd d))).
    { intros n Hn1 Hn2. clear - Hnd Hn1 Hn2.
      induction (snd entry) as [|x l IHl]; [contradiction|].
      simpl in Hnd. inversion Hnd as [|? ? Hx Hl]; subst.
      destruct Hn1 as [->|Hn1]; [|auto].
      apply Hx. apply in_or_app. now right. }
    constructor.
    + simpl.
      rewrite (survivors_same (snd entry) (before ++ part ++ List.concat parts) part).
      * now apply camera_survivors.
      * intros n Hn. rewrite !in_app_iff. split; [|tauto].
        intros [Hb|[Hp|Hps]]; [|assumption|].
        -- exfalso. apply (Hbefore n Hb). apply in_or_app. now left.
        -- exfalso. apply (Hdisj n Hn). now apply Hparts.
    + rewrite app_assoc. apply IH; [assumption|].
      intros n Hn Hin. apply in_app_or in Hn as [Hb|Hp].
      * apply (Hbefore n Hb). apply in_or_app. now right.
      * apply (Hdisj n); [now apply (subsequence_incl _ _ Hpart)|assumption].
Qed.

(** X12: detection is idempotent: on a catalog in which no name occurs twice,
    the detector run again on the names it did not find unwanted finds
    none of them unwanted. *)
Theorem detection_is_idempotent (d : dict (list string)) (removed : list string) :
  NoDup (dict_keys d) ->
  NoDup (catalog_names d) ->
  detect d = Ok removed ->
  detect (map (fun entry => (fst entry, survivors (snd entry) removed)) d) = Ok [].
Proof.
  intros Hkeys Hnames Hd.
  destruct (detect_parts d removed Hkeys Hd) as (parts & HF & ->).
  pose proof (parts_survivors d parts HF Hnames [] (fun n H => match H with end))
    as HF'.
  simpl in HF'.
  rewrite (detect_entries folder radii threshold min_area).
  - apply (collect_cameras folder radii threshold min_area).
    eexists. split; [exact HF'|].
    simpl. clear. induction d as [|e d IH]; simpl; [reflexivity|exact IH].
  - unfold dict_keys. rewrite map_map. simpl. exact Hkeys.
Qed.

(** *** With the contracts of OpenCV and [imaging_interview] *)

Hypothesis cv2_resize_shape :
  forall (img : image) (width height : nat),
    shape (cv2_resize img (width, height)) = (height, width, dim2 (shape img)).

Hypothesis preprocess_shape :
  forall (img : image) (blur : list Z),
    gray_shape (preprocess_image_change_detection img blur) = height_width img.

Hypothesis compare_defined :
  forall (a b : gray_image) (area : Q),
    gray_shape a = gray_shape b ->
    exists score, compare_frames_change_detection a b area = Ok score.

(** The score is a sum of contour areas. *)
Hypothesis compare_nonnegative :
  forall (a b : gray_image) (area score : Q),
    compare_frames_change_detection a b area = Ok score -> (0 <= score)%Q.

Lemma camera_returns (names acc : list string) :
  exists removed, camera names acc = Ok removed.
Proof.
  destruct (walk_from_empty folder radii threshold min_area
              cv2_resize_shape preprocess_shape compare_defined names acc)
    as (st' & Hw & _).
  exists (unwanted_images st'). unfold identify_camera. now rewrite Hw.
Qed.

Lemma detect_loop_returns (d : dict (list string)) (keys : list string) :
  forall acc : list string,
  incl keys (dict_keys d) ->
  exists removed,
    for_in keys
      (fun unwanted cam =>
         match dict_get cam d with
         | None => Raise KeyError
         | Some names => camera names unwanted
         end)
      acc = Ok removed.
Proof.
  induction keys as [|k keys IH]; intros acc Hincl; simpl.
  - eexists; reflexivity.
  - destruct (dict_get_key d k) as (names & Hget); [apply Hincl; now left|].
    rewrite Hget. destruct (camera_returns names acc) as (r & Hr). rewrite Hr.
    apply IH. intros x Hx. apply Hincl. now right.
Qed.

(** X13: with libraries that keep their contracts the detector raises nothing,
    whatever the catalog and whatever the sizes of the images. *)
Theorem detector_returns (d : dict (list string)) :
  exists removed, detect d = Ok removed.
Proof.
  unfold identify_similar_photos. apply detect_loop_returns. apply incl_refl.
Qed.

Lemma walk_threshold_not_positive (names : list string) :
  (threshold <= 0)%Q ->
  forall st : loop_state,
  exists st',
    walk names st = Ok st' /\
    unwanted_images st' = unwanted_images st ++ undecodable folder names.
Proof.
  intros Hthr. induction names as [|name names IH]; intros st.
  - exists st. rewrite walk_nil, app_nil_r. split; reflexivity.
  - rewrite walk_cons'. unfold undecodable. simpl filter.
    fold (undecodable folder names).
    destruct (cv2_imread (os_path_join folder name)) as [img|] eqn:E.
    + assert (Hstep : exists c, step st name =
                Ok {| current_image := c; unwanted_images := unwanted_images st |}).
      { unfold visit. rewrite E.
        destruct (current_image st) as [cur|]; [|eexists; reflexivity].
        destruct (compare_reconciled radii min_area
                    cv2_resize_shape preprocess_shape compare_defined cur img)
          as (score & Hs).
        rewrite Hs.
        assert (Hge : Qltb score threshold = false).
        { apply Qltb_not_lt. intros Hlt.
          apply compare_nonnegative in Hs.
          apply (Qlt_not_le _ _ Hlt). now apply Qle_trans with 0%Q. }
        rewrite Hge. eexists; reflexivity. }
      destruct Hstep as (c & ->).
      destruct (IH {| current_image := c; unwanted_images := unwanted_images st |})
        as (st' & Hw & Hu).
      exists st'. split; assumption.
    + rewrite (step_decode_failure folder radii threshold min_area _ _ E).
      destruct (IH {| current_image := current_image st;
                      unwanted_images := unwanted_images st ++ [name] |})
        as (st' & Hw & Hu).
      exists st'. split; [assumption|]. rewrite Hu. simpl.
      now rewrite <- app_assoc.
Qed.

Lemma undecodable_catalog (d : dict (list string)) :
  List.concat (map (fun entry => undecodable folder (snd entry)) d) =
    undecodable folder (catalog_names d).
Proof.
  unfold catalog_names, undecodable.
  induction d as [|entry d IH]; simpl; [reflexivity|].
  now rewrite filter_app, IH.
Qed.

(** X14: with a threshold that is not positive, no image that decodes is ever
    unwanted: the detector returns the names that do not decode. *)
Theorem nothing_is_below_a_zero_threshold (d : dict (list string)) :
  (threshold <= 0)%Q ->
  NoDup (dict_keys d) ->
  detect d = Ok (undecodable folder (catalog_names d)).
Proof.
  intros Hthr Hnd.
  rewrite (detect_entries folder radii threshold min_area d Hnd).
  apply (collect_cameras folder radii threshold min_area).
  exists (map (fun entry => undecodable folder (snd entry)) d).
  split; [|now rewrite undecodable_catalog].
  clear Hnd. induction d as [|entry d IH]; simpl; constructor; [|exact IH].
  unfold identify_camera.
  destruct (walk_threshold_not_positive (snd entry) Hthr (EMPTY []))
    as (st' & Hw & Hu).
  rewrite Hw, Hu. reflexivity.
Qed.

End DetectorFurther.

(** * Properties of the script *)

Lemma children_present (folder : string) (fs : filesystem) (name : string) :
  In name (children folder fs) ->
  fs_lookup (folder ++ "\" ++ name) fs <> None.
Proof.
  induction fs as [|[p m] fs IH]; [contradiction|].
  intros Hin.
  change (fs_lookup (folder ++ "\" ++ name) ((p, m) :: fs))
    with (if p =? (folder ++ "\" ++ name)%string then Some m
          else fs_lookup (folder ++ "\" ++ name) fs).
  destruct (p =? (folder ++ "\" ++ name)%string) eqn:E; [discriminate|].
  apply IH.
  change (children folder ((p, m) :: fs))
    with (match child_name folder p with
          | Some n => n :: children folder fs
          | None => children folder fs
          end) in Hin.
  destruct (child_name folder p) as [n|] eqn:C; [|exact Hin].
  destruct Hin as [->|Hin]; [|exact Hin].
  apply child_name_Some in C. subst p. now rewrite String.eqb_refl in E.
Qed.

(** When [load_input] returns, its dictionary is the grouping of the
    folder's listing as the files are then. *)
Lemma load_input_Ok (folder : string) (w : world) (d : dict (list string)) :
  fst (load_input folder w) = Ok d ->
  d = populate (children folder (files (snd (load_input folder w)))).
Proof.
  unfold load_input, bind, try_except, os_remove, os_listdir, ret,
    is_FileNotFoundError.
  destruct (os_remove_result (folder ++ "\.DS_Store") (files w)) as [e|]; simpl.
  - destruct e; simpl; try discriminate.
    destruct (fs_lookup folder (files w)) as [[|b]|]; simpl; try discriminate.
    now intros [= <-].
  - destruct (fs_lookup folder (fs_delete (folder ++ "\.DS_Store") (files w)))
      as [[|b]|]; simpl; try discriminate.
    now intros [= <-].
Qed.

(** [load_input] changes the file of no path but the [.DS_Store] path, and
    lists no name that was not in the folder before. *)
Lemma load_input_frame (folder : string) (w : world) (path : string) :
  path <> (folder ++ "\.DS_Store")%string ->
  fs_lookup path (files (snd (load_input folder w))) = fs_lookup path (files w).
Proof.
  intros Hne.
  unfold load_input, bind, try_except, os_remove, os_listdir, ret,
    is_FileNotFoundError.
  destruct (os_remove_result (folder ++ "\.DS_Store") (files w)) as [e|]; simpl.
  - destruct e; simpl; try reflexivity.
    destruct (fs_lookup folder (files w)) as [[|b]|]; reflexivity.
  - destruct (fs_lookup folder (fs_delete (folder ++ "\.DS_Store") (files w)))
      as [[|b]|]; simpl; apply fs_lookup_delete_other; congruence.
Qed.

Lemma load_input_listing (folder : string) (w : world) (name : string) :
  In name (children folder (files (snd (load_input folder w)))) ->
  In name (children folder (files w)).
Proof.
  unfold load_input, bind, try_except, os_remove, os_listdir, ret,
    is_FileNotFoundError.
  destruct (os_remove_result (folder ++ "\.DS_Store") (files w)) as [e|]; simpl.
  - destruct e; simpl; try trivial.
    destruct (fs_lookup folder (files w)) as [[|b]|]; trivial.
  - assert (Hsub : In name (children folder
                              (fs_delete (folder ++ "\.DS_Store") (files w))) ->
                   In name (children folder (files w))).
    { rewrite children_delete_marker. intros H. now apply filter_In in H. }
    destruct (fs_lookup folder (fs_delete (folder ++ "\.DS_Store") (files w)))
      as [[|b]|]; simpl; exact Hsub.
Qed.

Lemma in_catalog_names (d : dict (list string)) (name : string) :
  In name (catalog_names d) ->
  exists cam names, In (cam, names) d /\ In name names.
Proof.
  unfold catalog_names. rewrite in_concat.
  intros (names & Hn & Hin). apply in_map_iff in Hn as ([cam ns] & E & He).
  simpl in E. subst ns. eauto.
Qed.

Section Script.
Context {P : OsPath} {I : Imaging}.
Variable folder : string.
Variable radii : list Z.
Variable threshold : Q.
Variable min_area : Q.

Local Abbreviation detect := (identify_similar_photos folder radii threshold min_area).
Local Abbreviation script := (run_script folder radii threshold min_area).

(** The script as the three calls it makes. *)
Lemma run_script_steps (w : world) :
  script w =
    match load_input folder w with
    | (Ok d, w1) =>
        match detect d with
        | Ok unwanted => remove_similar_photos folder unwanted w1
        | Raise e => (Raise e, w1)
        end
    | (Raise e, w1) => (Raise e, w1)
    end.
Proof.
  unfold run_script, bind, lift.
  destruct (load_input folder w) as [[d|e] w1]; [|reflexivity].
  destruct (detect d); reflexivity.
Qed.

(** [os.path.join] of the folder and a listed name is the folder, a
    backslash and the name. *)
Hypothesis join_in_folder :
  forall name, os_path_join folder name = (folder ++ "\" ++ name)%string.

(** X20: the first listed file of every camera is still in the folder when the
    script has run, whether it ended with an exception or not: the loader
    leaves its name out of the catalog, so it is neither looked at nor
    deleted. *)
Theorem script_keeps_first_file_of_every_camera (w : world)
  (before after : list string) (first : string) :
  let w1 := snd (load_input folder w) in
  children folder (files w1) = before ++ first :: after ->
  (forall f, In f before -> camera_of f <> camera_of first) ->
  ~ In first after ->
  fs_lookup (folder ++ "\" ++ first) (files (snd (script w))) =
    fs_lookup (folder ++ "\" ++ first) (files w1) /\
  fs_lookup (folder ++ "\" ++ first) (files (snd (script w))) <> None.
Proof.
  intros w1 Hlisting Hbefore Hafter.
  assert (Hpresent : fs_lookup (folder ++ "\" ++ first) (files w1) <> None).
  { apply children_present. rewrite Hlisting. apply in_or_app. right. now left. }
  assert (Hsame : fs_lookup (folder ++ "\" ++ first) (files (snd (script w))) =
                  fs_lookup (folder ++ "\" ++ first) (files w1)).
  { rewrite run_script_steps. subst w1.
    pose proof (load_input_Ok folder w) as Hd.
    destruct (load_input folder w) as [[d|e] w1]; simpl in *; [|reflexivity].
    specialize (Hd d eq_refl). rewrite Hlisting in Hd.
    destruct (detect d) as [unwanted|e] eqn:Edet; [|reflexivity].
    apply (remove_loop_frame folder unwanted _ 0%Z w1).
    intros Hin. apply in_map_iff in Hin as (name & Ejoin & Hname).
    rewrite join_in_folder in Ejoin.
    apply append_inv_head in Ejoin. injection Ejoin as ->.
    assert (Hnd : NoDup (dict_keys d)) by (subst d; apply populate_keys_NoDup).
    destruct (detect_parts folder radii threshold min_area d unwanted Hnd Edet)
      as (parts & HF & ->).
    pose proof (subsequence_incl _ _
                  (parts_subsequence folder radii threshold min_area d parts HF)
                  first Hname) as Hcat.
    apply in_catalog_names in Hcat as (cam & names & Hentry & Hfirst).
    pose proof (dict_get_In d cam names Hnd Hentry) as Hget. subst d.
    exact (populate_first_absent before after first Hbefore Hafter
             cam names Hget Hfirst). }
  split; [exact Hsame|]. now rewrite Hsame.
Qed.

(** X21: the script changes no file but the [.DS_Store] of the folder and files
    listed in the folder: every other path keeps what it had. *)
Theorem script_touches_only_listed_files (w : world) (path : string) :
  path <> (folder ++ "\.DS_Store")%string ->
  (forall name, In name (children folder (files w)) ->
                path <> (folder ++ "\" ++ name)%string) ->
  fs_lookup path (files (snd (script w))) = fs_lookup path (files w).
Proof.
  intros Hmarker Hlisted. rewrite run_script_steps.
  pose proof (load_input_Ok folder w) as Hd.
  pose proof (load_input_frame folder w path Hmarker) as Hframe.
  pose proof (load_input_listing folder w) as Hsub.
  destruct (load_input folder w) as [[d|e] w1]; simpl in *; [|exact Hframe].
  specialize (Hd d eq_refl).
  destruct (detect d) as [unwanted|e] eqn:Edet; [|exact Hframe].
  rewrite <- Hframe. apply (remove_loop_frame folder unwanted path 0%Z w1).
  intros Hin. apply in_map_iff in Hin as (name & Ejoin & Hname).
  rewrite join_in_folder in Ejoin.
  apply (Hlisted name); [|now symmetry].
  apply Hsub.
  assert (Hnd : NoDup (dict_keys d)) by (subst d; apply populate_keys_NoDup).
  destruct (detect_parts folder radii threshold min_area d unwanted Hnd Edet)
    as (parts & HF & ->).
  pose proof (subsequence_incl _ _
                (parts_subsequence folder radii threshold min_area d parts HF)
                name Hname) as Hcat.
  apply in_catalog_names in Hcat as (cam & names & Hentry & Hin).
  pose proof (dict_get_In d cam names Hnd Hentry) as Hget. subst d.
  exact (proj1 (populate_get_In _ cam names name Hget Hin)).
Qed.

(** *** With the contracts of OpenCV and [imaging_interview] *)

Hypothesis cv2_resize_shape :
  forall (img : image) (width height : nat),
    shape (cv2_resize img (width, height)) = (height, width, dim2 (shape img)).

Hypothesis preprocess_shape :
  forall (img : image) (blur : list Z),
    gray_shape (preprocess_image_change_detection img blur) = height_width img.

Hypothesis compare_defined :
  forall (a b : gray_image) (area : Q),
    gray_shape a = gray_shape b ->
    exists score, compare_frames_change_detection a b area = Ok score.

(** X22: on a folder that exists, with no [.DS_Store] or one that can be
    deleted, the script runs to its end: it returns the number it prints. *)
Theorem script_returns (w : world) :
  fs_lookup folder (files w) = Some Dir ->
  os_remove_result (folder ++ "\.DS_Store") (files w) <> Some PermissionError ->
  exists n : Z, fst (script w) = Ok n.
Proof.
  intros Hdir Hmarker. rewrite run_script_steps.
  assert (Hload : exists d, fst (load_input folder w) = Ok d).
  { unfold load_input, bind, try_except, os_remove, os_listdir, ret,
      is_FileNotFoundError.
    destruct (os_remove_result (folder ++ "\.DS_Store") (files w)) as [e|] eqn:E;
      simpl.
    - unfold os_remove_result in E.
      destruct (fs_lookup (folder ++ "\.DS_Store") (files w)) as [[|[|]]|];
        try discriminate; try (now contradiction Hmarker).
      injection E as <-. simpl. rewrite Hdir. eexists; reflexivity.
    - rewrite (fs_lookup_delete_other _ _ _ (folder_is_not_marker folder)), Hdir.
      eexists; reflexivity. }
  destruct Hload as (d & Hd).
  destruct (load_input folder w) as [[d'|e] w1]; simpl in Hd; [|discriminate].
  destruct (detect_loop_returns folder radii threshold min_area
              cv2_resize_shape preprocess_shape compare_defined
              d' (dict_keys d') [] (incl_refl _)) as (unwanted & Hdet).
  unfold identify_similar_photos. rewrite Hdet.
  destruct (remove_loop_spec folder unwanted 0%Z w1) as (calls & _ & _ & Hr).
  eexists. exact Hr.
Qed.

End Script.

(** ** The further properties on the example instance *)

Lemma toy_compare_nonnegative (disk : dict Example.toy_image) :
  forall (a b : @gray_image (Example.toy_imaging disk)) (area score : Q),
    compare_frames_change_detection a b area = Ok score -> (0 <= score)%Q.
Proof.
  intros a b area score. simpl. unfold Example.toy_compare.
  destruct (_ && _); [|discriminate]. intros [= <-].
  unfold Qle. simpl. pose proof (Z.abs_nonneg (snd a - snd b)). lia.
Qed.

Lemma example_catalog_keys : NoDup (dict_keys Example.catalog).
Proof. repeat constructor; simpl; intuition discriminate. Qed.

Lemma example_catalog_names : NoDup (catalog_names Example.catalog).
Proof. repeat constructor; simpl; intuition discriminate. Qed.

Lemma unwanted_images_come_from_catalog_witness :
  subsequence ["c10-2.png"; "c10-9.png"; "c20-2.png"; "c20-9.png"]
    (catalog_names Example.catalog) /\
  (NoDup (catalog_names Example.catalog) ->
   NoDup ["c10-2.png"; "c10-9.png"; "c20-2.png"; "c20-9.png"]).
Proof.
  exact (unwanted_images_come_from_catalog
           (P := Example.windows_path) (I := Example.toy_imaging Example.disk)
           Example.dataset Example.radii Example.threshold Example.min_area
           Example.catalog ["c10-2.png"; "c10-9.png"; "c20-2.png"; "c20-9.png"]
           example_catalog_keys eq_refl).
Defined.

Lemma undecodable_names_are_all_unwanted_witness :
  In "c20-9.png" ["c10-2.png"; "c10-9.png"; "c20-2.png"; "c20-9.png"].
Proof.
  refine (undecodable_names_are_all_unwanted
            (P := Example.windows_path) (I := Example.toy_imaging Example.disk)
            Example.dataset Example.radii Example.threshold Example.min_area
            Example.catalog ["c10-2.png"; "c10-9.png"; "c20-2.png"; "c20-9.png"]
            "c20" ["c20-1.png"; "c20-2.png"; "c20-9.png"] "c20-9.png"
            example_catalog_keys eq_refl _ _ eq_refl).
  - right. now left.
  - simpl. auto.
Defined.

Lemma camera_keeps_a_frame_witness :
  (List.length ["c10-2.png"; "c10-9.png"] <
   List.length ["c10-1.png"; "c10-2.png"; "c10-3.png"; "c10-9.png"])%nat.
Proof.
  refine (camera_keeps_a_frame
            (P := Example.windows_path) (I := Example.toy_imaging Example.disk)
            Example.dataset Example.radii Example.threshold Example.min_area
            ["c10-1.png"; "c10-2.png"; "c10-3.png"; "c10-9.png"]
            ["c10-2.png"; "c10-9.png"] _ eq_refl).
  discriminate.
Defined.

Lemma duplicates_of_first_frame_are_all_unwanted_witness :
  identify_camera (H := Example.windows_path) (H0 := Example.toy_imaging Example.disk)
    Example.dataset Example.radii Example.threshold Example.min_area
    ["c20-1.png"; "c20-2.png"; "c20-9.png"] [] = Ok ["c20-2.png"; "c20-9.png"].
Proof.
  refine (duplicates_of_first_frame_are_all_unwanted
            (P := Example.windows_path) (I := Example.toy_imaging Example.disk)
            Example.dataset Example.radii Example.threshold Example.min_area
            "c20-1.png" ["c20-2.png"; "c20-9.png"] (Example.frame 480 640 5000)
            eq_refl _).
  intros name [<-|[<-|[]]].
  - exists (inject_Z 0). split; reflexivity.
  - exact Logic.I.
Defined.

Lemma detection_is_idempotent_witness :
  identify_similar_photos (H := Example.windows_path) (H0 := Example.toy_imaging Example.disk)
    Example.dataset Example.radii Example.threshold Example.min_area
    [("c10", ["c10-1.png"; "c10-3.png"]); ("c20", ["c20-1.png"])] = Ok [].
Proof.
  exact (detection_is_idempotent
           (P := Example.windows_path) (I := Example.toy_imaging Example.disk)
           Example.dataset Example.radii Example.threshold Example.min_area
           Example.catalog ["c10-2.png"; "c10-9.png"; "c20-2.png"; "c20-9.png"]
           example_catalog_keys example_catalog_names eq_refl).
Defined.

Lemma detector_returns_witness :
  exists removed,
    identify_similar_photos (H := Example.windows_path) (H0 := Example.toy_imaging Example.disk)
      Example.dataset Example.radii Example.threshold Example.min_area
      Example.catalog = Ok removed.
Proof.
  exact (detector_returns
           (P := Example.windows_path) (I := Example.toy_imaging Example.disk)
           Example.dataset Example.radii Example.threshold Example.min_area
           (toy_resize_shape _) (toy_preprocess_shape _) (toy_compare_defined _)
           Example.catalog).
Defined.

Lemma nothing_is_below_a_zero_threshold_witness :
  identify_similar_photos (H := Example.windows_path) (H0 := Example.toy_imaging Example.disk)
    Example.dataset Example.radii 0%Q Example.min_area
    Example.catalog = Ok ["c10-9.png"; "c20-9.png"].
Proof.
  refine (nothing_is_below_a_zero_threshold
            (P := Example.windows_path) (I := Example.toy_imaging Example.disk)
            Example.dataset Example.radii 0%Q Example.min_area
            (toy_resize_shape _) (toy_preprocess_shape _) (toy_compare_defined _)
            (toy_compare_nonnegative _)
            Example.catalog _ example_catalog_keys).
  unfold Qle. simpl. lia.
Defined.

Lemma script_keeps_first_file_of_every_camera_witness :
  let r := run_script
             (P := Example.windows_path) (I := Example.toy_imaging Example.script_disk)
             Example.dataset Example.radii Example.threshold Example.min_area
             Example.script_world in
  fst r = Ok 1%Z /\
  fs_lookup "C:\dataset\c10-3.png" (files (snd r)) = None /\
  fs_lookup "C:\dataset\c10-1.png" (files (snd r)) = Some (File true) /\
  fs_lookup "C:\dataset\c20-1.png" (files (snd r)) <> None.
Proof.
  intros r. split; [reflexivity|split; [reflexivity|split]].
  - refine (proj1 (script_keeps_first_file_of_every_camera
              (P := Example.windows_path) (I := Example.toy_imaging Example.script_disk)
              Example.dataset Example.radii Example.threshold Example.min_area
              (fun name => eq_refl)
              Example.script_world [] ["c10-2.png"; "c10-3.png"; "c20-1.png"]
              "c10-1.png" eq_refl _ _)).
    + intros f [].
    + simpl. intuition discriminate.
  - refine (proj2 (script_keeps_first_file_of_every_camera
              (P := Example.windows_path) (I := Example.toy_imaging Example.script_disk)
              Example.dataset Example.radii Example.threshold Example.min_area
              (fun name => eq_refl)
              Example.script_world ["c10-1.png"; "c10-2.png"; "c10-3.png"] []
              "c20-1.png" eq_refl _ _)).
    + intros f [<-|[<-|[<-|[]]]]; discriminate.
    + intros [].
Defined.

Lemma script_returns_witness :
  exists n : Z,
    fst (run_script
           (P := Example.windows_path) (I := Example.toy_imaging Example.script_disk)
           Example.dataset Example.radii Example.threshold Example.min_area
           Example.script_world) = Ok n.
Proof.
  refine (script_returns
            (P := Example.windows_path) (I := Example.toy_imaging Example.script_disk)
            Example.dataset Example.radii Example.threshold Example.min_area
            (toy_resize_shape _) (toy_preprocess_shape _) (toy_compare_defined _)
            Example.script_world eq_refl _).
  discriminate.
Defined.

Lemma script_touches_only_listed_files_witness :
  fs_lookup "C:\dataset" (files (snd (run_script
      (P := Example.windows_path) (I := Example.toy_imaging Example.script_disk)
      Example.dataset Example.radii Example.threshold Example.min_area
      Example.script_world))) = Some Dir.
Proof.
  refine (script_touches_only_listed_files
            (P := Example.windows_path) (I := Example.toy_imaging Example.script_disk)
            Example.dataset Example.radii Example.threshold Example.min_area
            (fun name => eq_refl)
            Example.script_world "C:\dataset" _ _).
  - discriminate.
  - intros name _. apply not_eq_sym, (append_neq_self "C:\dataset" ("\" ++ name)).
    discriminate.
Defined.
